(** * The notifier service (backend-services/notifier/core/notifier.py)

    A shallow embedding of the notifier module: the log filter
    [HijackLogFilter], the loading of [hij_log_filter] from the
    environment, the two message callbacks of [Notifier.Worker], the
    [Notifier] life cycle and the [/config] handler; followed by the
    properties of the design document, each settled against this embedding. *)

From Stdlib Require Import ZArith Lia Ascii String.
From stdpp Require Import base option list gmap strings.

Open Scope string_scope.
Open Scope list_scope.
Set Warnings "-register-all".

(** ** Python values and exceptions *)

Module Py.

(** The values that [ujson] decodes (floats are left out), and [VObj] for
    any other object held by a log record (a tuple, a traceback), known by
    its identity. A [dict] keeps its items in insertion order, which is the
    order a [for] loop visits them. *)
Inductive pyval : Type :=
| VObj (id : nat)
| VNone
| VBool (b : bool)
| VInt (z : Z)
| VStr (s : string)
| VList (l : list pyval)
| VDict (d : list (string * pyval)).

Inductive exn : Type :=
| KeyError
| TypeError
| AttributeError
| ValueError
| MessageStateError
| ConnectionError
| OtherError (what : string).

(** The outcome of an expression that may raise. *)
Inductive result (A : Type) : Type :=
| Ok (a : A)
| Raise (e : exn).
Arguments Ok {A} a.
Arguments Raise {A} e.

Definition rbind {A B} (r : result A) (k : A -> result B) : result B :=
  match r with
  | Ok a => k a
  | Raise e => Raise e
  end.

Definition raises {A} (r : result A) : bool :=
  match r with Ok _ => false | Raise _ => true end.

(** [d.get(k)] on the items of a dict: [None] when the key is absent. *)
Fixpoint dict_lookup (d : list (string * pyval)) (k : string) : option pyval :=
  match d with
  | [] => None
  | (k', v) :: d' => if String.eqb k' k then Some v else dict_lookup d' k
  end.

(** The keys of a dict, in the order [for k in d] yields them. *)
Definition dict_keys (d : list (string * pyval)) : list string := map fst d.

(** [a == b]. [bool] is a subclass of [int] ([True == 1]); lists compare
    item by item, dicts compare as mappings, whatever their order. *)
Fixpoint py_eq (a b : pyval) {struct a} : bool :=
  match a, b with
  | VObj i, VObj j => Nat.eqb i j
  | VNone, VNone => true
  | VBool x, VBool y => Bool.eqb x y
  | VBool x, VInt y => Z.eqb (Z.b2z x) y
  | VInt x, VBool y => Z.eqb x (Z.b2z y)
  | VInt x, VInt y => Z.eqb x y
  | VStr x, VStr y => String.eqb x y
  | VList x, VList y =>
      (fix items (x y : list pyval) {struct x} : bool :=
         match x, y with
         | [], [] => true
         | a' :: x', b' :: y' => py_eq a' b' && items x' y'
         | _, _ => false
         end) x y
  | VDict x, VDict y =>
      Nat.eqb (length x) (length y) &&
      (fix items (x : list (string * pyval)) {struct x} : bool :=
         match x with
         | [] => true
         | (k, v) :: x' =>
             match dict_lookup y k with
             | Some w => py_eq v w && items x'
             | None => false
             end
         end) x
  | _, _ => false
  end.

(** [d[k]] on a dict: [KeyError] when the key is absent. *)
Definition dict_getitem (d : list (string * pyval)) (k : string) : result pyval :=
  match dict_lookup d k with
  | Some v => Ok v
  | None => Raise KeyError
  end.

(** [o.get(k, default)]: only a dict has the method. *)
Definition py_get (o : pyval) (k : string) (default : pyval) : result pyval :=
  match o with
  | VDict d =>
      match dict_lookup d k with
      | Some v => Ok v
      | None => Ok default
      end
  | _ => Raise AttributeError
  end.

(** [bool(o)]: what [if not o] tests. *)
Definition py_truthy (o : pyval) : bool :=
  match o with
  | VObj _ => true
  | VNone => false
  | VBool b => b
  | VInt z => negb (Z.eqb z 0)
  | VStr s => negb (String.eqb s "")
  | VList l => match l with [] => false | _ => true end
  | VDict d => match d with [] => false | _ => true end
  end.

(** What [for x in o] visits: the items of a list, the keys of a dict, the
    characters of a string; anything else is not iterable. *)
Definition py_iter (o : pyval) : result (list pyval) :=
  match o with
  | VList l => Ok l
  | VDict d => Ok (map VStr (dict_keys d))
  | VStr s => Ok (map (fun c => VStr (String c EmptyString)) (list_ascii_of_string s))
  | _ => Raise TypeError
  end.

(** [l[i]] with Python's negative indices; [None] when out of range. *)
Definition index_lookup {A} (l : list A) (i : Z) : option A :=
  let n := Z.of_nat (length l) in
  let j := if Z.ltb i 0 then Z.add i n else i in
  if Z.leb 0 j && Z.ltb j n then nth_error l (Z.to_nat j) else None.

(** [o[key]]: a dict is looked up (its keys are strings, so another hashable
    key is absent and a list or dict as key is unhashable), a list or a
    string is indexed by an integer, and nothing else can be subscripted. *)
Definition py_getitem (o key : pyval) : result pyval :=
  match o, key with
  | VDict d, VStr k => dict_getitem d k
  | VDict _, (VList _ | VDict _) => Raise TypeError
  | VDict _, _ => Raise KeyError
  | VList l, (VInt _ | VBool _) =>
      match index_lookup l (match key with VInt i => i | VBool b => Z.b2z b | _ => 0%Z end) with
      | Some v => Ok v
      | None => Raise (OtherError "IndexError")
      end
  | VStr s, (VInt _ | VBool _) =>
      match index_lookup (list_ascii_of_string s)
              (match key with VInt i => i | VBool b => Z.b2z b | _ => 0%Z end) with
      | Some c => Ok (VStr (String c EmptyString))
      | None => Raise (OtherError "IndexError")
      end
  | _, _ => Raise TypeError
  end.

End Py.

Import Py.

Global Instance result_ret : MRet result := @Ok.
Global Instance result_bind : MBind result := fun A B k r => rbind r k.

(** ** The state the service acts on *)

(** [rec.__dict__]: the attributes of a log record. *)
Abbreviation LogRecord := (gmap string pyval).

(** A line of the service's own logger ([log = get_logger()]). *)
Inductive log_line : Type :=
| log_exception (msg : string)
| log_info (msg : string).

(** [Notifier.Worker]: of its attributes only [should_stop] changes. *)
Record Worker : Type := mkWorker { should_stop : bool }.

Record World : Type := mkWorld {
  (** [basic_ack]s sent to the broker, oldest first, by delivery tag *)
  acks : list Z;
  (** records handed to the handlers of a logger, oldest first, by logger name *)
  emitted : list (string * LogRecord);
  (** what the service's own logger received *)
  app_log : list log_line;
  (** the attributes [LogRecord.__init__] takes from the call site, the clock
      and the running thread (pathname, lineno, created, thread, ...) *)
  ambient : LogRecord;
  (** [Notifier._running] and [Notifier.worker] *)
  _running : bool;
  worker : option Worker;
  (** the answers [is_running()] gives to a caller on another thread, one
      for each call in which the service thread blocks *)
  polls : list bool
}.

Definition set_acks (f : list Z -> list Z) (w : World) : World :=
  mkWorld (f (acks w)) (emitted w) (app_log w) (ambient w) (_running w) (worker w) (polls w).
Definition set_emitted (f : list (string * LogRecord) -> list (string * LogRecord))
    (w : World) : World :=
  mkWorld (acks w) (f (emitted w)) (app_log w) (ambient w) (_running w) (worker w) (polls w).
Definition set_app_log (f : list log_line -> list log_line) (w : World) : World :=
  mkWorld (acks w) (emitted w) (f (app_log w)) (ambient w) (_running w) (worker w) (polls w).
Definition set_running (b : bool) (w : World) : World :=
  mkWorld (acks w) (emitted w) (app_log w) (ambient w) b (worker w) (polls w).
Definition set_worker (o : option Worker) (w : World) : World :=
  mkWorld (acks w) (emitted w) (app_log w) (ambient w) (_running w) o (polls w).
Definition set_polls (f : list bool -> list bool) (w : World) : World :=
  mkWorld (acks w) (emitted w) (app_log w) (ambient w) (_running w) (worker w) (f (polls w)).

(** Statements: they change the world and return or raise. *)
Definition M (A : Type) : Type := World -> result A * World.

Global Instance M_ret : MRet M := fun A a w => (Ok a, w).
Global Instance M_bind : MBind M := fun A B k m w =>
  match m w with
  | (Ok a, w') => k a w'
  | (Raise e, w') => (Raise e, w')
  end.

Definition lift {A} (r : result A) : M A := fun w => (r, w).
Definition modify (f : World -> World) : M unit := fun w => (Ok tt, f w).
Definition raise {A} (e : exn) : M A := fun w => (Raise e, w).

(** [try: body except Exception: handler] *)
Definition try_except {A} (body : M A) (handler : exn -> M A) : M A := fun w =>
  match body w with
  | (Ok a, w') => (Ok a, w')
  | (Raise e, w') => handler e w'
  end.

(** [try: body finally: final] *)
Definition try_finally {A} (body : M A) (final : M unit) : M A := fun w =>
  match body w with
  | (r, w') =>
      match final w' with
      | (Ok _, w'') => (r, w'')
      | (Raise e, w'') => (Raise e, w'')
      end
  end.

(** A loop with an early [return]: the body answers [Some r] to return [r]
    from the enclosing function and [None] to go on with the next item. *)
Fixpoint for_ {A R} (items : list A) (body : A -> result (option R)) : result (option R) :=
  match items with
  | [] => Ok None
  | x :: rest =>
      match body x with
      | Ok None => for_ rest body
      | Ok (Some r) => Ok (Some r)
      | Raise e => Raise e
      end
  end.

Definition log_write (l : log_line) : M unit := modify (set_app_log (fun ls => ls ++ [l])).

(** The service thread blocks here: another thread may ask [is_running()]. *)
Definition poll : M unit := fun w => (Ok tt, set_polls (fun ps => ps ++ [_running w]) w).

(** ** The standard [logging] module, as far as the service drives it *)

Module logging.

(** A logger: its name, whether [isEnabledFor(INFO)] holds under the
    logging configuration, and the filters added to it, in order. *)
Record Logger (F : Type) : Type := mkLogger {
  name : string;
  enabled_for_info : bool;
  filters : list F
}.
Arguments mkLogger {F}.
Arguments name {F}.
Arguments enabled_for_info {F}.
Arguments filters {F}.

(** [logging.getLogger(name)] under a configuration that tells which
    loggers let INFO through. *)
Definition getLogger {F} (config : string -> bool) (nm : string) : Logger F :=
  mkLogger nm (config nm) [].

(** [Filterer.addFilter]: a filter is added once. *)
Definition addFilter {F} `{EqDecision F} (lg : Logger F) (f : F) : Logger F :=
  if decide (f ∈ filters lg) then lg
  else mkLogger (name lg) (enabled_for_info lg) (filters lg ++ [f]).

Section Logger.
Context {F : Type}.
(** the [filter] method of a filter object *)
Variable filter_method : F -> LogRecord -> result bool.

(** [Filterer.filter]: the record passes when no filter turns it down;
    what a filter raises goes to the caller. *)
Fixpoint Filterer_filter (fs : list F) (record : LogRecord) : result bool :=
  match fs with
  | [] => Ok true
  | f :: fs' =>
      result ← filter_method f record;
      if result : bool then Filterer_filter fs' record else Ok false
  end.

(** [LogRecord.__init__] for an INFO record of logger [nm]. *)
Definition LogRecord_init (amb : LogRecord) (nm msg : string) : LogRecord :=
  <["name" := VStr nm]>
    (<["msg" := VStr msg]>
       (<["levelname" := VStr "INFO"]>
          (<["levelno" := VInt 20]> amb))).

(** [Logger.makeRecord]: the items of [extra] become attributes of the
    record, and none may overwrite an attribute it already has. *)
Fixpoint add_extra (rv : LogRecord) (extra : list (string * pyval)) : result LogRecord :=
  match extra with
  | [] => Ok rv
  | (key, value) :: extra' =>
      if bool_decide (key ∈ ["message"; "asctime"]) || bool_decide (is_Some (rv !! key))
      then Raise KeyError
      else add_extra (<[key := value]> rv) extra'
  end.

Definition makeRecord (amb : LogRecord) (nm msg : string)
    (extra : list (string * pyval)) : result LogRecord :=
  add_extra (LogRecord_init amb nm msg) extra.

(** [Logger.callHandlers] *)
Definition callHandlers (lg : Logger F) (record : LogRecord) : M unit :=
  modify (set_emitted (fun out => out ++ [(name lg, record)])).

(** [Logger.handle] *)
Definition handle (lg : Logger F) (record : LogRecord) : M unit :=
  passes ← lift (Filterer_filter (filters lg) record);
  if passes : bool then callHandlers lg record else mret tt.

(** [Logger.info(msg, extra=extra)] *)
Definition info (lg : Logger F) (msg : string) (extra : list (string * pyval)) : M unit :=
  if enabled_for_info lg then
    fun w =>
      (record ← lift (makeRecord (ambient w) (name lg) msg extra);
       handle lg record) w
  else mret tt.
End Logger.

End logging.

(** ** The broker client ([kombu]), as far as the service drives it *)

Module kombu.

(** A delivered message: its delivery tag and what [message.payload]
    yields, the decoded body or the error of decoding it. *)
Record Message : Type := mkMessage {
  delivery_tag : Z;
  payload : result pyval
}.

(** [message.ack()] on a delivered message: one [basic_ack] for its tag. *)
Definition ack (message : Message) : M unit :=
  modify (set_acks (fun sent => sent ++ [delivery_tag message])).

(** The two queues of the worker. *)
Inductive queue : Type := hij_log_queue | mail_log_queue.

(** What the broker does during one [Notifier.run]: whether it can be
    reached, whether the exchange can be declared, the messages it delivers
    and how the consume loop ends ([None]: another thread calls [stop()] and
    the loop sees the stop flag). *)
Record Broker : Type := mkBroker {
  unreachable : option exn;
  declare_fails : option exn;
  deliveries : list (queue * Message);
  loop_error : option exn
}.

Definition fail_if (o : option exn) : M unit :=
  match o with
  | Some e => raise e
  | None => mret tt
  end.

(** [Connection(RABBITMQ_URI).__enter__] *)
Definition Connection (b : Broker) : M unit :=
  poll;; fail_if (unreachable b).

(** [create_exchange(..., declare=True)] *)
Definition create_exchange (b : Broker) : M unit :=
  poll;; fail_if (declare_fails b).

(** [ConsumerMixin.run]: every delivery goes to the callback of its queue;
    what a callback raises ends the loop. *)
Fixpoint consume (on_message : queue -> Message -> M unit)
    (ds : list (queue * Message)) : M unit :=
  match ds with
  | [] => mret tt
  | (q, m) :: ds' => poll;; on_message q m;; consume on_message ds'
  end.

(** The loop leaves without an error only once it sees [should_stop] set on
    the worker, which is what a [stop()] on another thread does while the
    loop waits. *)
Definition stop_seen : M unit :=
  modify (set_worker (Some (mkWorker true))).

Definition run (b : Broker) (on_message : queue -> Message -> M unit) : M unit :=
  consume on_message (deliveries b);;
  poll;;
  match loop_error b with
  | Some e => raise e
  | None => stop_seen
  end.

End kombu.

(** ** notifier.py *)

Module notifier.
Import logging kombu.

(** One entry of [hij_log_filter]: a JSON object, its items in order. *)
Abbreviation rule := (list (string * pyval)).

(** The filter classes of the module. *)
Inductive filter_class : Type := HijackLogFilter.

Global Instance filter_class_eq_dec : EqDecision filter_class.
Proof. solve_decision. Defined.

(** The module's globals, as they stand once the module is loaded. *)
Record Globals : Type := mkGlobals {
  hij_log : Logger filter_class;
  mail_log : Logger filter_class;
  hij_log_filter : list rule
}.

(** [os.getenv(key, default)] *)
Definition os_getenv (environ : gmap string string) (key default : string) : string :=
  match environ !! key with
  | Some v => v
  | None => default
  end.

(** [rec.__dict__[key]] *)
Definition rec_getitem (rec : LogRecord) (key : string) : result pyval :=
  match rec !! key with
  | Some v => Ok v
  | None => Raise KeyError
  end.

(** [HijackLogFilter.filter], reading the global [hij_log_filter]. *)
Definition HijackLogFilter_filter (hij_log_filter : list rule) (rec : LogRecord)
    : result bool :=
  match hij_log_filter with
  | [] => Ok true
  | _ =>
      r ← for_ hij_log_filter (fun filter_entry =>
            for_ (dict_keys filter_entry) (fun filter_entry_key =>
              lhs ← rec_getitem rec filter_entry_key;
              rhs ← dict_getitem filter_entry filter_entry_key;
              if py_eq lhs rhs then Ok (Some true) else Ok None));
      match r with
      | Some b => Ok b
      | None => Ok false
      end
  end.

(** [rec.__dict__[key]] for any key: the attributes are named by strings,
    so another hashable key is absent, and a list or dict is unhashable. *)
Definition rec_getitem_any (rec : LogRecord) (key : pyval) : result pyval :=
  match key with
  | VStr k => rec_getitem rec k
  | VList _ | VDict _ => Raise TypeError
  | _ => Raise KeyError
  end.

(** [HijackLogFilter.filter] when [hij_log_filter] is whatever value the
    setting decoded to; on a list of objects it is [HijackLogFilter_filter]. *)
Definition HijackLogFilter_filter_any (hij_log_filter : pyval) (rec : LogRecord)
    : result bool :=
  if negb (py_truthy hij_log_filter) then Ok true
  else
    entries ← py_iter hij_log_filter;
    r ← for_ entries (fun filter_entry =>
          keys ← py_iter filter_entry;
          for_ keys (fun filter_entry_key =>
            lhs ← rec_getitem_any rec filter_entry_key;
            rhs ← py_getitem filter_entry filter_entry_key;
            if py_eq lhs rhs then Ok (Some true) else Ok None));
    match r with
    | Some b => Ok b
    | None => Ok false
    end.

(** [ConfigHandler.post]: the body of the request, the globals and the
    world go in; the response written, the globals and the world come out. *)
Definition ConfigHandler_post (request : string) (g : Globals) : M (pyval * Globals) :=
  mret (VDict [("success", VBool true); ("message", VStr "configured")], g).

Section Service.
(** [ujson.loads] on the text of the filter configuration, and [ujson.dumps] *)
Variable json_loads : string -> result (list rule).
Variable json_dumps : pyval -> result string.

(** [hij_log_filter] as the module computes it when it is loaded, with the
    lines this writes to the service's logger. *)
Definition load_hij_log_filter (environ : gmap string string) : list rule * list log_line :=
  match json_loads (os_getenv environ "HIJACK_LOG_FILTER" "[]") with
  | Ok v => (v, [])
  | Raise _ => ([], [log_exception "exception"])
  end.

(** The top level of the module: both loggers get a [HijackLogFilter]. *)
Definition module_init (config : string -> bool) (environ : gmap string string)
    : Globals * list log_line :=
  let hij_log := getLogger config "hijack_logger" in
  let mail_log := getLogger config "mail_logger" in
  let '(hij_log_filter, lines) := load_hij_log_filter environ in
  let mail_log := addFilter mail_log HijackLogFilter in
  let hij_log := addFilter hij_log HijackLogFilter in
  (mkGlobals hij_log mail_log hij_log_filter, lines).

(** The [filter] method of an instance of a filter class. *)
Definition filter_method (g : Globals) (f : filter_class) (rec : LogRecord) : result bool :=
  match f with
  | HijackLogFilter => HijackLogFilter_filter (hij_log_filter g) rec
  end.

(** [Notifier.Worker.handle_hij_log] *)
Definition handle_hij_log (g : Globals) (message : Message) : M unit :=
  ack message;;
  hij_log_msg ← lift (payload message);
  text ← lift (json_dumps hij_log_msg);
  annotation ← lift (py_get hij_log_msg "community_annotation" (VStr "NA"));
  info (filter_method g) (hij_log g) text [("community_annotation", annotation)].

(** [Notifier.Worker.handle_mail_log] *)
Definition handle_mail_log (g : Globals) (message : Message) : M unit :=
  ack message;;
  mail_log_msg ← lift (payload message);
  text ← lift (json_dumps mail_log_msg);
  annotation ← lift (py_get mail_log_msg "community_annotation" (VStr "NA"));
  info (filter_method g) (mail_log g) text [("community_annotation", annotation)].

(** [Notifier.Worker.get_consumers]: the callback of each queue. *)
Definition on_message (g : Globals) (q : queue) (message : Message) : M unit :=
  match q with
  | hij_log_queue => handle_hij_log g message
  | mail_log_queue => handle_mail_log g message
  end.

(** [Notifier.Worker.__init__] *)
Definition Worker_init (b : Broker) : M Worker :=
  create_exchange b;; mret (mkWorker false).

(** [Notifier.__init__] *)
Definition Notifier_init : M unit :=
  modify (set_running false);; modify (set_worker None).

(** [Notifier.is_running] *)
Definition is_running : M bool := fun w => (Ok (_running w), w).

(** [Notifier.stop] *)
Definition stop : M unit := fun w =>
  match worker w with
  | Some _ => modify (set_worker (Some (mkWorker true))) w
  | None => modify (set_running false) w
  end.

(** [Notifier.run] *)
Definition run (g : Globals) (b : Broker) : M unit :=
  modify (set_running true);;
  try_finally
    (try_except
       (Connection b;;
        wk ← Worker_init b;
        modify (set_worker (Some wk));;
        kombu.run b (on_message g))
       (fun _ => log_write (log_exception "exception")))
    (log_write (log_info "stopped");; modify (set_running false)).

End Service.

End notifier.

(** ** Concrete data for the examples *)

Module Samples.
Import notifier.

(** A serialiser for the examples: JSON text of ASCII strings. *)
Definition dq : string := String "034"%char EmptyString.

(** A quote, a backslash and a slash are written behind a backslash. *)
Fixpoint escape (s : string) : string :=
  match s with
  | EmptyString => EmptyString
  | String c s' =>
      if Ascii.eqb c "034"%char || Ascii.eqb c "092"%char || Ascii.eqb c "/"%char
      then String "092"%char (String c (escape s'))
      else String c (escape s')
  end.

Fixpoint dumps_text (v : pyval) : string :=
  match v with
  | VObj _ => "null"
  | VNone => "null"
  | VBool true => "true"
  | VBool false => "false"
  | VInt z => pretty.pretty z
  | VStr s => dq +:+ escape s +:+ dq
  | VList l =>
      "[" +:+
      (fix items (l : list pyval) : string :=
         match l with
         | [] => ""
         | [x] => dumps_text x
         | x :: l' => dumps_text x +:+ "," +:+ items l'
         end) l +:+ "]"
  | VDict d =>
      "{" +:+
      (fix items (d : list (string * pyval)) : string :=
         match d with
         | [] => ""
         | [(k, x)] => dq +:+ escape k +:+ dq +:+ ":" +:+ dumps_text x
         | (k, x) :: d' => dq +:+ escape k +:+ dq +:+ ":" +:+ dumps_text x +:+ "," +:+ items d'
         end) d +:+ "}"
  end.

Definition dumps (v : pyval) : result string := Ok (dumps_text v).

(** A decoder for the examples. It reads the texts that are a list of
    objects whose values are strings without escapes, spaces allowed between
    the tokens, and raises on every other text. *)
Inductive scan : Type :=
| AtStart
| InList (rs : list rule) (more : bool)
| InObject (rs : list rule) (e : rule) (more : bool)
| InKey (rs : list rule) (e : rule) (k : string)
| AfterKey (rs : list rule) (e : rule) (k : string)
| BeforeValue (rs : list rule) (e : rule) (k : string)
| InValue (rs : list rule) (e : rule) (k v : string)
| AfterValue (rs : list rule) (e : rule)
| AfterObject (rs : list rule)
| AtEnd (rs : list rule).

(** [d[k] = v] on the items of a dict: a key met again keeps its place. *)
Fixpoint set_item (e : rule) (k : string) (v : pyval) : rule :=
  match e with
  | [] => [(k, v)]
  | (k', v') :: e' => if String.eqb k' k then (k', v) :: e' else (k', v') :: set_item e' k v
  end.

Definition snoc_char (s : string) (c : ascii) : string := s +:+ String c EmptyString.

Definition scan_step (st : scan) (c : ascii) : option scan :=
  let see x := Ascii.eqb c x in
  match st with
  | AtStart =>
      if see " "%char then Some AtStart
      else if see "["%char then Some (InList [] false) else None
  | InList rs more =>
      if see " "%char then Some st
      else if see "{"%char then Some (InObject rs [] false)
      else if see "]"%char && negb more then Some (AtEnd rs) else None
  | InObject rs e more =>
      if see " "%char then Some st
      else if see "034"%char then Some (InKey rs e "")
      else if see "}"%char && negb more then Some (AfterObject (rs ++ [e])) else None
  | InKey rs e k =>
      if see "034"%char then Some (AfterKey rs e k)
      else if see "092"%char then None else Some (InKey rs e (snoc_char k c))
  | AfterKey rs e k =>
      if see " "%char then Some st
      else if see ":"%char then Some (BeforeValue rs e k) else None
  | BeforeValue rs e k =>
      if see " "%char then Some st
      else if see "034"%char then Some (InValue rs e k "") else None
  | InValue rs e k v =>
      if see "034"%char then Some (AfterValue rs (set_item e k (VStr v)))
      else if see "092"%char then None else Some (InValue rs e k (snoc_char v c))
  | AfterValue rs e =>
      if see " "%char then Some st
      else if see ","%char then Some (InObject rs e true)
      else if see "}"%char then Some (AfterObject (rs ++ [e])) else None
  | AfterObject rs =>
      if see " "%char then Some st
      else if see ","%char then Some (InList rs true)
      else if see "]"%char then Some (AtEnd rs) else None
  | AtEnd rs => if see " "%char then Some st else None
  end.

Fixpoint scan_text (st : scan) (s : string) : result (list rule) :=
  match s with
  | EmptyString =>
      match st with
      | AtEnd rs => Ok rs
      | _ => Raise ValueError
      end
  | String c s' =>
      match scan_step st c with
      | Some st' => scan_text st' s'
      | None => Raise ValueError
      end
  end.

Definition loads (s : string) : result (list rule) := scan_text AtStart s.

(** The setting [[{"community_annotation": "critical"}]], as text. *)
Definition critical_only : string :=
  "[{" +:+ dq +:+ "community_annotation" +:+ dq +:+ ": "
       +:+ dq +:+ "critical" +:+ dq +:+ "}]".

(** The attributes a log record gets from the call site, the clock and the
    thread, for a call made in [handle_hij_log]. *)
Definition call_site : LogRecord :=
  list_to_map
    [("args", VObj 0); ("pathname", VStr "/root/core/notifier.py");
     ("filename", VStr "notifier.py"); ("module", VStr "notifier");
     ("exc_info", VNone); ("exc_text", VNone); ("stack_info", VNone);
     ("lineno", VInt 155); ("funcName", VStr "handle_hij_log");
     ("created", VObj 1); ("msecs", VObj 2); ("relativeCreated", VObj 3);
     ("thread", VInt 140213); ("threadName", VStr "Thread-1");
     ("processName", VStr "MainProcess"); ("process", VInt 1)].

Definition world0 : World := mkWorld [] [] [] call_site false None [].

(** Globals with both loggers letting INFO through. *)
Definition globals (hij_log_filter : list rule) : Globals :=
  mkGlobals (logging.mkLogger "hijack_logger" true [HijackLogFilter])
            (logging.mkLogger "mail_logger" true [HijackLogFilter])
            hij_log_filter.

End Samples.

(** ** Notions the properties are stated with *)

Module Props.
Import logging kombu notifier.

(** The pair of [entry] under [key] equals the field of the record: the
    test of the inner loop of [HijackLogFilter.filter], a missing field
    counting as no match. *)
Definition pair_matches (rec : LogRecord) (entry : rule) (key : string) : bool :=
  match rec !! key, dict_lookup entry key with
  | Some x, Some v => py_eq x v
  | _, _ => false
  end.

(** Some pair of the rule matches the record. *)
Definition rule_matches_any (rec : LogRecord) (entry : rule) : bool :=
  existsb (pair_matches rec entry) (dict_keys entry).

(** All pairs of the rule match the record: acceptance by a rule in the
    words of the design document. *)
Definition rule_matches_all (rec : LogRecord) (entry : rule) : bool :=
  forallb (pair_matches rec entry) (dict_keys entry).

(** [accept(record, rules)] in the words of the design document: the empty
    rule set accepts, otherwise some rule has to match in all its pairs. *)
Definition spec_accept (rec : LogRecord) (rules : list rule) : bool :=
  match rules with
  | [] => true
  | _ => existsb (rule_matches_all rec) rules
  end.

(** Every field the rules name is a field of the record. *)
Definition fields_present (rules : list rule) (rec : LogRecord) : Prop :=
  ∀ entry key, entry ∈ rules → key ∈ dict_keys entry → is_Some (rec !! key).

(** The logger a queue's callback writes to. *)
Definition logger_of (g : Globals) (q : queue) : Logger filter_class :=
  match q with
  | hij_log_queue => hij_log g
  | mail_log_queue => mail_log g
  end.

(** The annotation the callbacks attach: [msg.get("community_annotation", "NA")]. *)
Definition annotation_of (d : list (string * pyval)) : pyval :=
  match dict_lookup d "community_annotation" with
  | Some v => v
  | None => VStr "NA"
  end.

(** The record a callback builds for logger [nm] from the text of a payload
    and its annotation. *)
Definition record_of (amb : LogRecord) (nm text : string) (annotation : pyval) : LogRecord :=
  <["community_annotation" := annotation]> (LogRecord_init amb nm text).

(** A world in which nothing has been sent, written, logged or polled. *)
Definition fresh_world (amb : LogRecord) : World := mkWorld [] [] [] amb false None [].

(** Whether the callback of a delivery raises; of the world it runs in, only
    the ambient attributes matter for that. *)
Definition callback_raises (dumps : pyval → result string) (g : Globals)
    (amb : LogRecord) (d : queue * Message) : bool :=
  raises (fst (on_message dumps g (fst d) (snd d) (fresh_world amb))).

(** The deliveries a consume loop hands to a callback: those up to and
    including the first whose callback raises. *)
Fixpoint consumed (dumps : pyval → result string) (g : Globals) (amb : LogRecord)
    (ds : list (queue * Message)) : list (queue * Message) :=
  match ds with
  | [] => []
  | d :: ds' =>
      d :: (if callback_raises dumps g amb d then [] else consumed dumps g amb ds')
  end.

(** The body of the [try] statement of [Notifier.run]. *)
Definition run_body (dumps : pyval → result string) (g : Globals) (b : Broker) : M unit :=
  Connection b;;
  wk ← Worker_init b;
  modify (set_worker (Some wk));;
  kombu.run b (on_message dumps g).

End Props.

(** ** The filter *)

Import logging kombu notifier Props.

Lemma dict_lookup_keys (d : list (string * pyval)) (k : string) :
  k ∈ dict_keys d → is_Some (dict_lookup d k).
Proof.
  unfold dict_keys. induction d as [|[k' v] d IH]; simpl.
  - intros H. inversion H.
  - intros H. destruct (String.eqb_spec k' k) as [->|Hne]; [eauto|].
    apply IH. apply elem_of_cons in H as [H|H]; [congruence|done].
Qed.

(** The inner loop, when the fields it reads are there: it returns [True] at
    the first matching pair and falls through otherwise. *)
Lemma inner_loop_present (rec : LogRecord) (entry : rule) (keys : list string) :
  (∀ key, key ∈ keys → is_Some (rec !! key) ∧ is_Some (dict_lookup entry key)) →
  for_ keys (fun filter_entry_key =>
      lhs ← rec_getitem rec filter_entry_key;
      rhs ← dict_getitem entry filter_entry_key;
      if py_eq lhs rhs then Ok (Some true) else Ok None)
  = Ok (if existsb (pair_matches rec entry) keys then Some true else None).
Proof.
  induction keys as [|k keys IH]; intros Hp; [reflexivity|].
  destruct (Hp k) as [[x Hx] [v Hv]]; [left|].
  cbn [for_ existsb]. unfold pair_matches at 1, rec_getitem at 1, dict_getitem at 1.
  rewrite Hx, Hv. cbn. destruct (py_eq x v); cbn; [reflexivity|].
  apply IH. intros key Hk. apply Hp. by right.
Qed.

(** Both loops, when every field the rules name is there. *)
Lemma loops_present (rec : LogRecord) (rules : list rule) :
  fields_present rules rec →
  for_ rules (fun filter_entry =>
      for_ (dict_keys filter_entry) (fun filter_entry_key =>
        lhs ← rec_getitem rec filter_entry_key;
        rhs ← dict_getitem filter_entry filter_entry_key;
        if py_eq lhs rhs then Ok (Some true) else Ok None))
  = Ok (if existsb (rule_matches_any rec) rules then Some true else None).
Proof.
  induction rules as [|entry rules IH]; intros Hp; [reflexivity|].
  cbn [for_ existsb]. rewrite inner_loop_present.
  - fold (rule_matches_any rec entry).
    destruct (rule_matches_any rec entry); cbn; [reflexivity|].
    apply IH. intros e k He Hk. apply (Hp e k); [by right|done].
  - intros key Hk. split; [apply (Hp entry key); [left|done]|].
    by apply dict_lookup_keys.
Qed.

(** The filter as a boolean formula, when every field the rules name is there. *)
Lemma filter_present (rules : list rule) (rec : LogRecord) :
  fields_present rules rec →
  HijackLogFilter_filter rules rec
  = Ok (match rules with [] => true | _ => existsb (rule_matches_any rec) rules end).
Proof.
  intros Hp. unfold HijackLogFilter_filter. destruct rules as [|entry rules]; [reflexivity|].
  rewrite loops_present by done.
  generalize (existsb (rule_matches_any rec) (entry :: rules)).
  intros [|]; reflexivity.
Qed.

Lemma rule_matches_any_spec (rec : LogRecord) (entry : rule) :
  rule_matches_any rec entry = true ↔
  ∃ key x v, dict_lookup entry key = Some v ∧ rec !! key = Some x ∧ py_eq x v = true.
Proof.
  unfold rule_matches_any. rewrite existsb_exists. split.
  - intros (key & _ & Hm). unfold pair_matches in Hm.
    destruct (rec !! key) as [x|] eqn:Hx; [|done].
    destruct (dict_lookup entry key) as [v|] eqn:Hv; [|done]. eauto 6.
  - intros (key & x & v & Hv & Hx & He). exists key. split.
    + apply list_elem_of_In. unfold dict_keys. clear Hx He.
      induction entry as [|[k' v'] entry IH]; [done|]. simpl in *.
      destruct (String.eqb_spec k' key) as [->|Hne]; [left|right; auto].
    + unfold pair_matches. by rewrite Hx, Hv.
Qed.

(** C1, as stated, fails. The rule
    [{"community_annotation": "critical", "levelname": "INFO"}] does not match
    an INFO record annotated "NA" in all its pairs, yet the filter accepts
    the record: the second pair matches and the loop returns. *)
Lemma all_pairs_counterexample :
  let rules : list rule :=
    [[("community_annotation", VStr "critical"); ("levelname", VStr "INFO")]] in
  let rec := record_of Samples.call_site "hijack_logger" "{}" (VStr "NA") in
  rules ≠ [] ∧
  spec_accept rec rules = false ∧
  HijackLogFilter_filter rules rec = Ok true.
Proof. split; [discriminate|]. split; vm_compute; reflexivity. Qed.

(** C1, amended. For every non-empty rule set and every record that has all
    the fields the rules name, the filter accepts the record if and only if
    some rule has at least one pair equal to the record's field; when no pair
    of any rule matches, the record is rejected. *)
Theorem filter_accepts_iff_some_pair (rules : list rule) (rec : LogRecord) :
  rules ≠ [] →
  fields_present rules rec →
  (HijackLogFilter_filter rules rec = Ok true ↔
   ∃ entry key x v,
     entry ∈ rules ∧ dict_lookup entry key = Some v ∧
     rec !! key = Some x ∧ py_eq x v = true) ∧
  (HijackLogFilter_filter rules rec = Ok true ∨
   HijackLogFilter_filter rules rec = Ok false).
Proof.
  intros Hne Hp. rewrite (filter_present rules rec Hp).
  assert (Hb : existsb (rule_matches_any rec) rules = true ↔
               ∃ entry key x v,
                 entry ∈ rules ∧ dict_lookup entry key = Some v ∧
                 rec !! key = Some x ∧ py_eq x v = true).
  { rewrite existsb_exists. split.
    - intros (e & He & Hm).
      apply rule_matches_any_spec in Hm as (key & x & v & ?).
      exists e, key, x, v. split; [by apply list_elem_of_In|done].
    - intros (e & key & x & v & He & Hm).
      exists e. split; [by apply list_elem_of_In|].
      apply rule_matches_any_spec. eauto. }
  destruct rules as [|entry rules]; [done|].
  revert Hb. generalize (existsb (rule_matches_any rec) (entry :: rules)).
  intros b Hb. split.
  - rewrite <- Hb. split; [congruence|intros ->; reflexivity].
  - destruct b; auto.
Qed.

Lemma filter_accepts_iff_some_pair_witness :
  let rules : list rule :=
    [[("community_annotation", VStr "critical"); ("levelname", VStr "INFO")]] in
  let rec := record_of Samples.call_site "hijack_logger" "{}" (VStr "NA") in
  HijackLogFilter_filter rules rec = Ok true ∨
  HijackLogFilter_filter rules rec = Ok false.
Proof.
  intros rules rec.
  refine (proj2 (filter_accepts_iff_some_pair rules rec _ _)).
  - discriminate.
  - intros entry key He Hk.
    apply list_elem_of_singleton in He as ->.
    apply elem_of_cons in Hk as [->|Hk]; [vm_compute; eauto|].
    apply list_elem_of_singleton in Hk as ->. vm_compute; eauto.
Defined.

(** ** The message callbacks *)

(** [Logger.info], statement by statement. *)
Lemma info_run {F} (fm : F → LogRecord → result bool) (lg : Logger F)
    (msg : string) (extra : list (string * pyval)) (w : World) :
  info fm lg msg extra w =
  if enabled_for_info lg then
    match makeRecord (ambient w) (name lg) msg extra with
    | Raise e => (Raise e, w)
    | Ok record =>
        match Filterer_filter fm (filters lg) record with
        | Raise e => (Raise e, w)
        | Ok true => (Ok tt, set_emitted (fun out => out ++ [(name lg, record)]) w)
        | Ok false => (Ok tt, w)
        end
    end
  else (Ok tt, w).
Proof.
  unfold info. destruct (enabled_for_info lg); [|reflexivity].
  unfold mbind, M_bind, lift, handle.
  destruct (makeRecord _ _ _ _) as [record|e]; [|reflexivity].
  unfold mbind, M_bind, lift.
  destruct (Filterer_filter _ _ _) as [[|]|e]; reflexivity.
Qed.

(** The record of a callback: the annotation is its only extra attribute. *)
Lemma makeRecord_annotation (amb : LogRecord) (nm text : string) (a : pyval) :
  amb !! "community_annotation" = None →
  makeRecord amb nm text [("community_annotation", a)] = Ok (record_of amb nm text a).
Proof.
  intros Ha. unfold makeRecord, add_extra, record_of.
  assert (Hl : LogRecord_init amb nm text !! "community_annotation" = None).
  { unfold LogRecord_init. by rewrite !lookup_insert_ne. }
  rewrite Hl. rewrite (bool_decide_eq_false_2 (is_Some None)) by (intros [? [=]]).
  rewrite bool_decide_eq_false_2; [reflexivity|].
  intros H. repeat (apply elem_of_cons in H as [H|H]; [discriminate|]). inversion H.
Qed.

(** A callback, statement by statement. *)
Lemma on_message_run (dumps : pyval → result string) (g : Globals) (q : queue)
    (m : Message) (w : World) :
  on_message dumps g q m w =
  let w1 := set_acks (fun sent => sent ++ [delivery_tag m]) w in
  match payload m with
  | Raise e => (Raise e, w1)
  | Ok p =>
      match dumps p with
      | Raise e => (Raise e, w1)
      | Ok text =>
          match py_get p "community_annotation" (VStr "NA") with
          | Raise e => (Raise e, w1)
          | Ok a =>
              info (filter_method g) (logger_of g q) text [("community_annotation", a)] w1
          end
      end
  end.
Proof.
  destruct q; unfold on_message, handle_hij_log, handle_mail_log, logger_of;
    unfold mbind, M_bind, ack, modify, lift; cbv zeta;
    (destruct (payload m) as [p|e]; [|reflexivity]);
    (destruct (dumps p) as [text|e]; [|reflexivity]);
    (destruct (py_get p _ _) as [a|e]; reflexivity).
Qed.

(** What [Logger.info] leaves alone. *)
Lemma info_frame {F} (fm : F → LogRecord → result bool) (lg : Logger F)
    (msg : string) (extra : list (string * pyval)) (w : World) :
  let w' := snd (info fm lg msg extra w) in
  acks w' = acks w ∧ app_log w' = app_log w ∧ ambient w' = ambient w ∧
  _running w' = _running w ∧ worker w' = worker w ∧ polls w' = polls w.
Proof.
  rewrite info_run. destruct (enabled_for_info lg); [|done].
  destruct (makeRecord _ _ _ _) as [record|e]; [|done].
  destruct (Filterer_filter _ _ _) as [[|]|e]; done.
Qed.

(** What a callback leaves alone. *)
Lemma on_message_frame (dumps : pyval → result string) (g : Globals) (q : queue)
    (m : Message) (w : World) :
  let w' := snd (on_message dumps g q m w) in
  app_log w' = app_log w ∧ ambient w' = ambient w ∧
  _running w' = _running w ∧ worker w' = worker w ∧ polls w' = polls w.
Proof.
  rewrite on_message_run. cbv zeta.
  destruct (payload m) as [p|e]; [|done].
  destruct (dumps p) as [text|e]; [|done].
  destruct (py_get p _ _) as [a|e]; [|done].
  pose proof (info_frame (filter_method g) (logger_of g q) text
                [("community_annotation", a)]
                (set_acks (fun sent => sent ++ [delivery_tag m]) w)) as H.
  cbv zeta in H. destruct H as (_ & ? & ? & ? & ? & ?). done.
Qed.

(** All the filters of a logger are [HijackLogFilter]s over one rule set:
    together they decide as one does. *)
Lemma Filterer_filter_one (g : Globals) (fs : list filter_class) (rec : LogRecord) (b : bool) :
  HijackLogFilter_filter (hij_log_filter g) rec = Ok b →
  Filterer_filter (filter_method g) fs rec = Ok (match fs with [] => true | _ => b end).
Proof.
  intros Hb. induction fs as [|[] fs IH]; [reflexivity|].
  cbn. rewrite Hb. cbn. destruct b; [|reflexivity].
  rewrite IH. by destruct fs.
Qed.

(** C7. For every record, the filter evaluated against the empty rule set
    returns true: no configuration means every record is accepted, by the
    filter and so by any logger that carries it. *)
Theorem empty_rule_set_accepts (rec : LogRecord) :
  HijackLogFilter_filter [] rec = Ok true ∧
  ∀ (hij mail : Logger filter_class) (fs : list filter_class),
    Filterer_filter (filter_method (mkGlobals hij mail [])) fs rec = Ok true.
Proof.
  split; [reflexivity|]. intros hij mail fs.
  rewrite (Filterer_filter_one _ fs rec true); [by destruct fs|reflexivity].
Qed.

(** A callback sends exactly one acknowledgment, for its message, whatever
    happens next: the sink writes, the filter rejects, or the callback raises. *)
Lemma one_ack_per_callback (dumps : pyval → result string) (g : Globals)
    (q : queue) (m : Message) (w : World) :
  acks (snd (on_message dumps g q m w)) = acks w ++ [delivery_tag m].
Proof.
  rewrite on_message_run. cbv zeta.
  destruct (payload m) as [p|e]; [|done].
  destruct (dumps p) as [text|e]; [|done].
  destruct (py_get p _ _) as [a|e]; [|done].
  pose proof (info_frame (filter_method g) (logger_of g q) text
                [("community_annotation", a)]
                (set_acks (fun sent => sent ++ [delivery_tag m]) w)) as H.
  cbv zeta in H. destruct H as (-> & _). done.
Qed.

(** The filter raises when the first field it reads is not in the record. *)
Lemma filter_missing_field (key : string) (v : pyval) (rest : rule) (rules : list rule)
    (rec : LogRecord) :
  rec !! key = None →
  HijackLogFilter_filter (((key, v) :: rest) :: rules) rec = Raise KeyError.
Proof.
  intros Hk. unfold HijackLogFilter_filter. cbn [for_ dict_keys map fst].
  unfold rec_getitem at 1. rewrite Hk. reflexivity.
Qed.




(** The fields of the record a callback builds. *)
Lemma record_of_annotation (amb : LogRecord) (nm text : string) (a : pyval) :
  record_of amb nm text a !! "community_annotation" = Some a.
Proof. unfold record_of. apply lookup_insert_eq. Qed.

Lemma record_of_other (amb : LogRecord) (nm text : string) (a : pyval) (key : string) :
  key ∉ ["community_annotation"; "name"; "msg"; "levelname"; "levelno"] →
  record_of amb nm text a !! key = amb !! key.
Proof.
  intros Hk. unfold record_of, LogRecord_init.
  rewrite !lookup_insert_ne; [done|..]; intros <-; apply Hk;
    repeat first [by left | right].
Qed.

(** A callback whose payload is a JSON object, statement by statement. *)
Lemma on_message_object (dumps : pyval → result string) (g : Globals) (q : queue)
    (m : Message) (w : World) (d : list (string * pyval)) (text : string) :
  payload m = Ok (VDict d) →
  dumps (VDict d) = Ok text →
  ambient w !! "community_annotation" = None →
  enabled_for_info (logger_of g q) = true →
  let w1 := set_acks (fun sent => sent ++ [delivery_tag m]) w in
  let record := record_of (ambient w) (name (logger_of g q)) text (annotation_of d) in
  on_message dumps g q m w =
  match Filterer_filter (filter_method g) (filters (logger_of g q)) record with
  | Raise e => (Raise e, w1)
  | Ok true =>
      (Ok tt, set_emitted (fun out => out ++ [(name (logger_of g q), record)]) w1)
  | Ok false => (Ok tt, w1)
  end.
Proof.
  intros Hp Hd Ha He. cbv zeta.
  rewrite on_message_run. cbv zeta. rewrite Hp, Hd. cbn [py_get].
  assert (Hget : match dict_lookup d "community_annotation" with
                 | Some v => Ok v
                 | None => Ok (VStr "NA")
                 end = Ok (annotation_of d)).
  { unfold annotation_of. by destruct (dict_lookup d _). }
  rewrite Hget, info_run, He. cbn [ambient set_acks].
  rewrite makeRecord_annotation by done. reflexivity.
Qed.

(** C4, as stated, fails. Under the rule set [{"type": "hijack"}] the
    record is not accepted: the filter reads the attributes of the log
    record, which carries the payload as text and its annotation but no
    "type", so it raises [KeyError] and nothing is written. *)
Lemma hijack_scenario_counterexample :
  let p := VDict [("community_annotation", VStr "abuse123"); ("type", VStr "hijack")] in
  let rules : list rule := [[("type", VStr "hijack")]] in
  let r := handle_hij_log Samples.dumps (Samples.globals rules)
             (mkMessage 7 (Ok p)) Samples.world0 in
  fst r = Raise KeyError ∧ emitted (snd r) = [] ∧ acks (snd r) = [7%Z].
Proof. repeat split; vm_compute; reflexivity. Qed.

(** C4, amended. The record
    [{"community_annotation": "abuse123", "type": "hijack"}] processed
    against the hijack rule set [{"type": "hijack"}] is acknowledged and then
    the filter raises [KeyError], the log record having no "type": nothing is
    written. Processed against a rule set on the annotation,
    [{"community_annotation": "abuse123"}], it is accepted and the hijack
    sink writes a log record with annotation "abuse123". *)
Theorem hijack_scenario (dumps : pyval → result string) (hij mail : Logger filter_class)
    (w : World) (tag : Z) (text : string) :
  let p := VDict [("community_annotation", VStr "abuse123"); ("type", VStr "hijack")] in
  let m := mkMessage tag (Ok p) in
  let w1 := set_acks (fun sent => sent ++ [tag]) w in
  let record := record_of (ambient w) (name hij) text (VStr "abuse123") in
  dumps p = Ok text →
  enabled_for_info hij = true →
  filters hij = [HijackLogFilter] →
  ambient w !! "community_annotation" = None →
  ambient w !! "type" = None →
  handle_hij_log dumps (mkGlobals hij mail [[("type", VStr "hijack")]]) m w
    = (Raise KeyError, w1) ∧
  handle_hij_log dumps (mkGlobals hij mail [[("community_annotation", VStr "abuse123")]]) m w
    = (Ok tt, set_emitted (fun out => out ++ [(name hij, record)]) w1) ∧
  record !! "community_annotation" = Some (VStr "abuse123").
Proof.
  intros p m w1 record Hd He Hf Ha Ht.
  split; [|split; [|apply record_of_annotation]].
  - change (handle_hij_log dumps ?g m w) with (on_message dumps g hij_log_queue m w).
    rewrite (on_message_object dumps (mkGlobals hij mail [[("type", VStr "hijack")]])
               hij_log_queue m w _ text eq_refl Hd Ha He).
    cbn [logger_of hij_log]. rewrite Hf. cbn [Filterer_filter filter_method hij_log_filter].
    rewrite filter_missing_field; [reflexivity|].
    rewrite record_of_other; [done|].
    intros H. repeat (apply elem_of_cons in H as [H|H]; [discriminate|]). inversion H.
  - change (handle_hij_log dumps ?g m w) with (on_message dumps g hij_log_queue m w).
    rewrite (on_message_object dumps
               (mkGlobals hij mail [[("community_annotation", VStr "abuse123")]])
               hij_log_queue m w _ text eq_refl Hd Ha He).
    cbn [logger_of hij_log]. rewrite Hf. cbn [Filterer_filter filter_method hij_log_filter].
    change (annotation_of _) with (VStr "abuse123").
    unfold HijackLogFilter_filter. cbn [for_ dict_keys map fst].
    unfold rec_getitem. rewrite record_of_annotation. reflexivity.
Qed.

Lemma hijack_scenario_witness :
  let p := VDict [("community_annotation", VStr "abuse123"); ("type", VStr "hijack")] in
  let r := handle_hij_log Samples.dumps
             (Samples.globals [[("community_annotation", VStr "abuse123")]])
             (mkMessage 7 (Ok p)) Samples.world0 in
  fst r = Ok tt ∧
  ∃ record, emitted (snd r) = [("hijack_logger", record)] ∧
            record !! "community_annotation" = Some (VStr "abuse123").
Proof.
  intros p r. subst r.
  destruct (hijack_scenario Samples.dumps
              (mkLogger "hijack_logger" true [HijackLogFilter])
              (mkLogger "mail_logger" true [HijackLogFilter])
              Samples.world0 7 (Samples.dumps_text p)) as (_ & H & Hr);
    [reflexivity|reflexivity|reflexivity|vm_compute; reflexivity|vm_compute; reflexivity|].
  unfold Samples.globals. fold p in H. rewrite H.
  split; [reflexivity|]. eexists. split; [reflexivity|exact Hr].
Defined.

(** C8, as stated, fails. The record [{"type": "mail"}] is consumed and
    acknowledged, yet under the rule set
    [{"community_annotation": "critical"}] the filter turns it down and the
    sink writes nothing. *)
Lemma every_record_written_counterexample :
  let rules : list rule := [[("community_annotation", VStr "critical")]] in
  let r := handle_mail_log Samples.dumps (Samples.globals rules)
             (mkMessage 8 (Ok (VDict [("type", VStr "mail")]))) Samples.world0 in
  fst r = Ok tt ∧ acks (snd r) = [8%Z] ∧ emitted (snd r) = [].
Proof. repeat split; vm_compute; reflexivity. Qed.

(** C8, amended. For every record consumed that the filter accepts (as it
    does whenever the rule set is empty), the sink writes a structured log
    entry whose text is the serialised record and whose annotation field
    equals record["community_annotation"] when that key is present, and the
    literal string "NA" otherwise; concretely, record [{"type": "mail"}]
    under an empty rule set is accepted and written with annotation "NA". *)
Theorem accepted_record_written (dumps : pyval → result string) (g : Globals) (q : queue)
    (m : Message) (w : World) (d : list (string * pyval)) (text : string) :
  let lg := logger_of g q in
  let record := record_of (ambient w) (name lg) text (annotation_of d) in
  payload m = Ok (VDict d) →
  dumps (VDict d) = Ok text →
  ambient w !! "community_annotation" = None →
  enabled_for_info lg = true →
  hij_log_filter g = [] ∨ Filterer_filter (filter_method g) (filters lg) record = Ok true →
  on_message dumps g q m w
    = (Ok tt, set_emitted (fun out => out ++ [(name lg, record)])
                (set_acks (fun sent => sent ++ [delivery_tag m]) w)) ∧
  record !! "msg" = Some (VStr text) ∧
  record !! "community_annotation"
    = Some (match dict_lookup d "community_annotation" with
            | Some v => v
            | None => VStr "NA"
            end).
Proof.
  intros lg record Hp Hd Ha He Hacc.
  assert (Hf : Filterer_filter (filter_method g) (filters lg) record = Ok true).
  { destruct Hacc as [Hnil|Hf]; [|done].
    rewrite (Filterer_filter_one g _ _ true); [by destruct (filters lg)|].
    rewrite Hnil. reflexivity. }
  split; [|split].
  - rewrite (on_message_object dumps g q m w d text Hp Hd Ha He). cbv zeta.
    fold lg. fold record. rewrite Hf. reflexivity.
  - unfold record, record_of, LogRecord_init.
    rewrite lookup_insert_ne by done. rewrite lookup_insert_ne by done.
    apply lookup_insert_eq.
  - apply record_of_annotation.
Qed.

Lemma accepted_record_written_witness :
  let r := handle_mail_log Samples.dumps (Samples.globals [])
             (mkMessage 8 (Ok (VDict [("type", VStr "mail")]))) Samples.world0 in
  fst r = Ok tt ∧
  ∃ record, emitted (snd r) = [("mail_logger", record)] ∧
            record !! "community_annotation" = Some (VStr "NA").
Proof.
  intros r. subst r.
  destruct (accepted_record_written Samples.dumps (Samples.globals []) mail_log_queue
              (mkMessage 8 (Ok (VDict [("type", VStr "mail")]))) Samples.world0
              [("type", VStr "mail")]
              (Samples.dumps_text (VDict [("type", VStr "mail")])))
    as (H & _ & Hr);
    [reflexivity|reflexivity|vm_compute; reflexivity|reflexivity|left; reflexivity|].
  change (handle_mail_log ?d ?g ?m ?w) with (on_message d g mail_log_queue m w).
  rewrite H. split; [reflexivity|]. eexists. split; [reflexivity|exact Hr].
Defined.

(** ** Loading the module *)

(** A logger with the one [HijackLogFilter] decides as the filter does. *)
Lemma Filterer_filter_single (g : Globals) (rec : LogRecord) :
  Filterer_filter (filter_method g) [HijackLogFilter] rec
  = HijackLogFilter_filter (hij_log_filter g) rec.
Proof.
  cbn. destruct (HijackLogFilter_filter _ _) as [[|]|e]; reflexivity.
Qed.

(** The globals once the module is loaded. *)
Lemma module_init_globals (loads : string → result (list rule)) (config : string → bool)
    (environ : gmap string string) :
  module_init loads config environ =
  (mkGlobals (mkLogger "hijack_logger" (config "hijack_logger") [HijackLogFilter])
             (mkLogger "mail_logger" (config "mail_logger") [HijackLogFilter])
             (fst (load_hij_log_filter loads environ)),
   snd (load_hij_log_filter loads environ)).
Proof.
  unfold module_init. destruct (load_hij_log_filter loads environ) as [rules lines].
  reflexivity.
Qed.

(** C5, as stated, fails. With the mail configuration untouched, changing
    the hijack rule set from [] to [{"community_annotation": "critical"}]
    changes what the mail sink writes for the same mail record: the mail
    sink is filtered by the hijack rules. *)
Lemma mail_rules_counterexample :
  let m := mkMessage 8 (Ok (VDict [("type", VStr "mail")])) in
  let written (hijack_rules : list rule) :=
    length (emitted (snd (handle_mail_log Samples.dumps (Samples.globals hijack_rules)
                            m Samples.world0))) in
  written [] = 1 ∧ written [[("community_annotation", VStr "critical")]] = 0.
Proof. split; vm_compute; reflexivity. Qed.

(** C5, amended. There is one rule set, loaded from the single setting
    HIJACK_LOG_FILTER, and both categories are bound to it: the rules in force
    once the module is loaded are those the text of that setting decodes to,
    the mail logger and the hijack logger each decide on a record as the
    filter over those rules does, so the mail sink's filtering is governed by
    the hijack rules; a change to any other setting of the environment leaves
    the loaded module as it is. *)
Theorem one_rule_set_for_both (loads : string → result (list rule)) (config : string → bool)
    (environ environ' : gmap string string) (text : string) (rules : list rule)
    (rec : LogRecord) :
  environ !! "HIJACK_LOG_FILTER" = Some text →
  loads text = Ok rules →
  environ' !! "HIJACK_LOG_FILTER" = environ !! "HIJACK_LOG_FILTER" →
  let g := fst (module_init loads config environ) in
  hij_log_filter g = rules ∧
  Filterer_filter (filter_method g) (filters (mail_log g)) rec
    = HijackLogFilter_filter rules rec ∧
  Filterer_filter (filter_method g) (filters (hij_log g)) rec
    = HijackLogFilter_filter rules rec ∧
  module_init loads config environ' = module_init loads config environ.
Proof.
  intros Hset Hload Henv g.
  assert (Hrules : hij_log_filter g = rules).
  { subst g. rewrite module_init_globals. cbn [fst hij_log_filter].
    unfold load_hij_log_filter, os_getenv. by rewrite Hset, Hload. }
  split; [exact Hrules|]. rewrite <- Hrules. subst g.
  rewrite !module_init_globals. cbn [fst hij_log_filter mail_log hij_log filters].
  split; [apply Filterer_filter_single|]. split; [apply Filterer_filter_single|].
  unfold load_hij_log_filter, os_getenv. rewrite Henv. reflexivity.
Qed.

Lemma one_rule_set_for_both_witness :
  let environ : gmap string string :=
    {[ "HIJACK_LOG_FILTER" := Samples.critical_only ]} in
  let environ' : gmap string string := <[ "MAIL_LOG_FILTER" := "[]" ]> environ in
  hij_log_filter (fst (module_init Samples.loads (fun _ => true) environ))
    = [[("community_annotation", VStr "critical")]] ∧
  module_init Samples.loads (fun _ => true) environ'
    = module_init Samples.loads (fun _ => true) environ.
Proof.
  intros environ environ'.
  destruct (one_rule_set_for_both Samples.loads (fun _ => true) environ environ'
              Samples.critical_only [[("community_annotation", VStr "critical")]]
              Samples.call_site) as (H1 & _ & _ & H2);
    [vm_compute; reflexivity|vm_compute; reflexivity|vm_compute; reflexivity|].
  split; [exact H1|exact H2].
Defined.

(** C9. If the filter configuration of the environment fails to parse, the
    module still loads: the failure is logged, the rule set is the empty one,
    and each sink's filter accepts every record. *)
Theorem malformed_filter_accepts_all (loads : string → result (list rule))
    (config : string → bool) (environ : gmap string string) (e : exn) :
  loads (os_getenv environ "HIJACK_LOG_FILTER" "[]") = Raise e →
  let g := fst (module_init loads config environ) in
  snd (module_init loads config environ) = [log_exception "exception"] ∧
  hij_log_filter g = [] ∧
  ∀ (q : queue) (rec : LogRecord),
    Filterer_filter (filter_method g) (filters (logger_of g q)) rec = Ok true.
Proof.
  intros Hl g. subst g. rewrite module_init_globals.
  unfold load_hij_log_filter. rewrite Hl. cbn [fst snd hij_log_filter].
  split; [reflexivity|]. split; [reflexivity|].
  intros [] rec; reflexivity.
Qed.

Lemma malformed_filter_accepts_all_witness :
  let environ : gmap string string := {[ "HIJACK_LOG_FILTER" := "[{" ]} in
  snd (module_init Samples.loads (fun _ => true) environ) = [log_exception "exception"] ∧
  hij_log_filter (fst (module_init Samples.loads (fun _ => true) environ)) = [].
Proof.
  intros environ.
  destruct (malformed_filter_accepts_all Samples.loads (fun _ => true) environ ValueError)
    as (H1 & H2 & _); [vm_compute; reflexivity|].
  split; [exact H1|exact H2].
Defined.

(** C10. Every POST to /config is answered with exactly
    [{"success": true, "message": "configured"}], whatever the request, and
    leaves the rule set, the loggers and the state of the notifier and its
    worker as they were. *)
Theorem config_post_changes_nothing (request : string) (g : Globals) (w : World) :
  ConfigHandler_post request g w
  = (Ok (VDict [("success", VBool true); ("message", VStr "configured")], g), w).
Proof. reflexivity. Qed.

(** ** The life cycle of the notifier *)

(** The consume loop leaves the running flag and the service's log alone;
    every answer polled meanwhile is the flag's value. *)
Lemma consume_frame (dumps : pyval → result string) (g : Globals)
    (ds : list (queue * Message)) (w : World) :
  let w' := snd (consume (on_message dumps g) ds w) in
  _running w' = _running w ∧ app_log w' = app_log w ∧
  ∃ ps, polls w' = polls w ++ ps ∧ Forall (fun p => p = _running w) ps.
Proof.
  revert w. induction ds as [|[q m] ds IH]; intros w; cbv zeta.
  - split; [done|]. split; [done|]. exists []. by rewrite app_nil_r.
  - cbn [consume]. unfold mbind, M_bind, poll.
    set (w1 := set_polls _ w).
    pose proof (on_message_frame dumps g q m w1) as Hf. cbv zeta in Hf.
    destruct (on_message dumps g q m w1) as [[[]|e] w2]; cbn [snd] in *;
      destruct Hf as (Hlog & _ & Hrun & _ & Hpolls).
    + specialize (IH w2). cbv zeta in IH. destruct IH as (IHr & IHl & ps & IHp & IHa).
      rewrite IHr, IHl. split; [exact Hrun|]. split; [exact Hlog|].
      exists (_running w :: ps). split.
      * rewrite IHp, Hpolls. subst w1. cbn. by rewrite <- app_assoc.
      * constructor; [done|].
        change (_running w1) with (_running w) in Hrun. by rewrite <- Hrun.
    + split; [exact Hrun|]. split; [exact Hlog|].
      exists [_running w]. split; [|by repeat constructor].
      rewrite Hpolls. reflexivity.
Qed.

(** The body of the [try] statement: the flag and the log stay as they
    are, the flag is polled at least once, and a broker that cannot be
    reached, an exchange that cannot be declared or a loop that ends with an
    error make the body raise. *)
Lemma run_body_frame (dumps : pyval → result string) (g : Globals) (b : Broker) (w : World) :
  let r := run_body dumps g b w in
  _running (snd r) = _running w ∧ app_log (snd r) = app_log w ∧
  (∃ ps, polls (snd r) = polls w ++ _running w :: ps ∧
         Forall (fun p => p = _running w) ps) ∧
  match unreachable b, declare_fails b, loop_error b with
  | Some _, _, _ =>
      raises (fst r) = true ∧ polls (snd r) = polls w ++ [_running w] ∧
      acks (snd r) = acks w
  | None, Some _, _ =>
      raises (fst r) = true ∧ polls (snd r) = polls w ++ [_running w; _running w] ∧
      acks (snd r) = acks w
  | None, None, Some _ => raises (fst r) = true
  | None, None, None => True
  end.
Proof.
  cbv zeta. unfold run_body, Connection, Worker_init, create_exchange, kombu.run.
  unfold mbind, M_bind, mret, M_ret, poll, stop_seen, modify, fail_if, raise.
  destruct (unreachable b) as [e1|]; cbn.
  { repeat split; try done. exists []. split; [done|constructor]. }
  destruct (declare_fails b) as [e2|]; cbn.
  { repeat split; try done.
    - exists [_running w]. split; [by rewrite <- app_assoc|by repeat constructor].
    - by rewrite <- app_assoc. }
  set (w1 := set_worker _ _).
  pose proof (consume_frame dumps g (deliveries b) w1) as Hc. cbv zeta in Hc.
  destruct (consume (on_message dumps g) (deliveries b) w1) as [[[]|e] w2];
    cbn [snd] in Hc; destruct Hc as (Hrun & Hlog & ps & Hpolls & Hall);
    change (_running w1) with (_running w) in *;
    change (app_log w1) with (app_log w) in *;
    change (polls w1) with ((polls w ++ [_running w]) ++ [_running w]) in Hpolls.
  - assert (Hps : ∃ ps', polls w2 ++ [_running w2]
                         = polls w ++ _running w :: ps' ∧
                         Forall (fun p => p = _running w) ps').
    { exists (_running w :: ps ++ [_running w]). split.
      - rewrite Hpolls, Hrun, <- !app_assoc. reflexivity.
      - constructor; [done|]. apply Forall_app. split; [done|by repeat constructor]. }
    destruct (loop_error b); cbn; repeat split; done.
  - cbn. split; [done|]. split; [done|]. split.
    + exists (_running w :: ps). split; [by rewrite Hpolls, <- !app_assoc|by constructor].
    + by destruct (loop_error b).
Qed.

(** [Notifier.run], statement by statement. *)
Lemma run_run (dumps : pyval → result string) (g : Globals) (b : Broker) (w : World) :
  run dumps g b w =
  let stopped w' :=
    set_running false (set_app_log (fun ls => ls ++ [log_info "stopped"]) w') in
  match run_body dumps g b (set_running true w) with
  | (Ok _, w') => (Ok tt, stopped w')
  | (Raise _, w') =>
      (Ok tt, stopped (set_app_log (fun ls => ls ++ [log_exception "exception"]) w'))
  end.
Proof.
  unfold run, try_finally, try_except. fold (run_body dumps g b).
  unfold mbind at 1, M_bind at 1, modify at 1.
  destruct (run_body dumps g b (set_running true w)) as [[[]|e] w']; reflexivity.
Qed.

(** C6, as stated, fails. [run()] sets the running flag before it connects:
    while a run waits for a broker that cannot be reached, [is_running()]
    answers true, and so it does while the declaration of the exchange fails. *)
Lemma running_during_failed_start_counterexample :
  let run_with b := run Samples.dumps (Samples.globals []) b Samples.world0 in
  polls (snd (run_with (mkBroker (Some ConnectionError) None [] None))) = [true] ∧
  polls (snd (run_with (mkBroker None (Some (OtherError "ACCESS_REFUSED")) [] None)))
    = [true; true].
Proof. split; vm_compute; reflexivity. Qed.

(** C6, amended. [run()] enters RUNNING at once: [is_running()] answers
    true from the first statement of [run()] until the run ends, also in a
    run that fails before consumption starts (broker unreachable, declaration
    failure). However the run ends, [run()] returns to its caller without
    raising and leaves the state STOPPED; when startup fails, or an error
    ends the consume loop, the error is logged before "stopped" is, and a
    failed startup acknowledges nothing. *)
Theorem run_ends_stopped (dumps : pyval → result string) (g : Globals) (b : Broker)
    (w : World) :
  let r := run dumps g b w in
  let failure := [log_exception "exception"; log_info "stopped"] in
  fst r = Ok tt ∧
  _running (snd r) = false ∧
  (∃ ps, polls (snd r) = polls w ++ true :: ps ∧ Forall (fun p => p = true) ps) ∧
  (∃ lines, app_log (snd r) = app_log w ++ lines ++ [log_info "stopped"] ∧
            (lines = [] ∨ lines = [log_exception "exception"])) ∧
  match unreachable b, declare_fails b, loop_error b with
  | Some _, _, _ =>
      polls (snd r) = polls w ++ [true] ∧ acks (snd r) = acks w ∧
      app_log (snd r) = app_log w ++ failure
  | None, Some _, _ =>
      polls (snd r) = polls w ++ [true; true] ∧ acks (snd r) = acks w ∧
      app_log (snd r) = app_log w ++ failure
  | None, None, Some _ => app_log (snd r) = app_log w ++ failure
  | None, None, None => True
  end.
Proof.
  cbv zeta. rewrite run_run. cbv zeta.
  pose proof (run_body_frame dumps g b (set_running true w)) as Hb. cbv zeta in Hb.
  destruct (run_body dumps g b (set_running true w)) as [[[]|e] w'];
    cbn [fst snd raises] in Hb; destruct Hb as (Hrun & Hlog & Hpolls & Hcase);
    change (_running (set_running true w)) with true in *;
    change (app_log (set_running true w)) with (app_log w) in *;
    change (polls (set_running true w)) with (polls w) in *;
    change (acks (set_running true w)) with (acks w) in *;
    cbn [fst snd set_running set_app_log _running polls app_log acks];
    rewrite Hlog.
  - split; [done|]. split; [done|]. split; [done|]. split.
    + exists []. split; [done|by left].
    + destruct (unreachable b); [by destruct Hcase|].
      destruct (declare_fails b); [by destruct Hcase|].
      by destruct (loop_error b).
  - split; [done|]. split; [done|]. split; [done|]. split.
    + exists [log_exception "exception"]. split; [by rewrite <- app_assoc|by right].
    + rewrite <- app_assoc.
      destruct (unreachable b); [by destruct Hcase as (_ & -> & ->)|].
      destruct (declare_fails b); [by destruct Hcase as (_ & -> & ->)|].
      by destruct (loop_error b).
Qed.

(** ** More on the filter *)

(** A loop over two lists in a row: the second is reached only when the
    first neither returns nor raises. *)
Lemma for_app {A R} (l1 l2 : list A) (body : A → result (option R)) :
  for_ (l1 ++ l2) body =
  match for_ l1 body with
  | Ok None => for_ l2 body
  | r => r
  end.
Proof.
  induction l1 as [|x l1 IH]; [reflexivity|].
  cbn [app for_]. destruct (body x) as [[r|]|e]; [reflexivity|exact IH|reflexivity].
Qed.

(** Two bodies that agree on the items give the same loop. *)
Lemma for_ext {A R} (l : list A) (body1 body2 : A → result (option R)) :
  (∀ x, x ∈ l → body1 x = body2 x) → for_ l body1 = for_ l body2.
Proof.
  induction l as [|x l IH]; intros H; [reflexivity|].
  cbn [for_]. rewrite (H x) by left.
  destruct (body2 x) as [[r|]|e]; try reflexivity.
  apply IH. intros y Hy. apply H. by right.
Qed.

(** The inner loop answers [True], falls through, or raises [KeyError] at a
    field the record lacks. *)
Lemma inner_loop_outcome (rec : LogRecord) (entry : rule) (keys : list string) :
  (∀ key, key ∈ keys → is_Some (dict_lookup entry key)) →
  match for_ keys (fun filter_entry_key =>
          lhs ← rec_getitem rec filter_entry_key;
          rhs ← dict_getitem entry filter_entry_key;
          if py_eq lhs rhs then Ok (Some true) else Ok None) with
  | Ok (Some b) => b = true
  | Ok None => True
  | Raise e => e = KeyError ∧ ∃ key, key ∈ keys ∧ rec !! key = None
  end.
Proof.
  induction keys as [|k keys IH]; intros Hk; [done|].
  cbn [for_]. unfold rec_getitem at 1, dict_getitem at 1.
  destruct (Hk k) as [v Hv]; [left|]. rewrite Hv.
  destruct (rec !! k) as [x|] eqn:Hx; cbn.
  - destruct (py_eq x v); [done|].
    assert (Hk' : ∀ key, key ∈ keys → is_Some (dict_lookup entry key)).
    { intros key Hin. apply Hk. by right. }
    specialize (IH Hk').
    destruct (for_ keys _) as [[b|]|e]; [done|done|].
    destruct IH as (-> & key & Hin & Hnone). split; [done|].
    exists key. split; [by right|done].
  - split; [done|]. exists k. split; [left|done].
Qed.

(** On a list of objects the only exception the filter raises is
    [KeyError], and it raises it only at a field that some rule names and the
    record lacks. *)
Lemma filter_raises_missing_field (rules : list rule) (rec : LogRecord) (e : exn) :
  HijackLogFilter_filter rules rec = Raise e →
  e = KeyError ∧
  ∃ entry key, entry ∈ rules ∧ key ∈ dict_keys entry ∧ rec !! key = None.
Proof.
  unfold HijackLogFilter_filter. destruct rules as [|entry0 rules0]; [done|].
  generalize (entry0 :: rules0). clear entry0 rules0. intros rules.
  assert (Hloop :
    match for_ rules (fun filter_entry =>
            for_ (dict_keys filter_entry) (fun filter_entry_key =>
              lhs ← rec_getitem rec filter_entry_key;
              rhs ← dict_getitem filter_entry filter_entry_key;
              if py_eq lhs rhs then Ok (Some true) else Ok None)) with
    | Raise e' => e' = KeyError ∧
        ∃ entry key, entry ∈ rules ∧ key ∈ dict_keys entry ∧ rec !! key = None
    | Ok _ => True
    end).
  { induction rules as [|entry rules IH]; [done|].
    cbn [for_].
    pose proof (inner_loop_outcome rec entry (dict_keys entry)
                  (fun key => dict_lookup_keys entry key)) as Hin.
    destruct (for_ (dict_keys entry) _) as [[b|]|e'].
    - done.
    - destruct (for_ rules _) as [r|e']; [done|].
      destruct IH as (-> & en & key & ? & ? & ?). split; [done|].
      exists en, key. split; [by right|done].
    - destruct Hin as (-> & key & ? & ?). split; [done|].
      exists entry, key. split; [left|done]. }
  destruct (for_ rules _) as [[b|]|e']; cbn; [done|done|].
  intros [= <-]. exact Hloop.
Qed.

(** X2. Rules added behind a non-empty rule set are consulted only when
    no rule before them matches or raises: an accepted record stays accepted,
    an error stays an error, and a record that the first rules turn down gets
    the verdict of the added rules. *)
Theorem filter_append (rules more : list rule) (rec : LogRecord) :
  rules ≠ [] →
  more ≠ [] →
  HijackLogFilter_filter (rules ++ more) rec =
  match HijackLogFilter_filter rules rec with
  | Ok false => HijackLogFilter_filter more rec
  | r => r
  end.
Proof.
  intros Hr Hm. unfold HijackLogFilter_filter.
  destruct rules as [|entry rules]; [done|]. destruct more as [|entry' more]; [done|].
  change ((entry :: rules) ++ entry' :: more)
    with (entry :: (rules ++ entry' :: more)).
  rewrite (for_app (entry :: rules) (entry' :: more)).
  pose proof (inner_loop_outcome rec) as Hin.
  assert (Hb : ∀ rs : list rule,
    match for_ rs (fun filter_entry =>
            for_ (dict_keys filter_entry) (fun filter_entry_key =>
              lhs ← rec_getitem rec filter_entry_key;
              rhs ← dict_getitem filter_entry filter_entry_key;
              if py_eq lhs rhs then Ok (Some true) else Ok None)) with
    | Ok (Some b) => b = true
    | _ => True
    end).
  { induction rs as [|en rs IH]; [done|]. cbn [for_].
    specialize (Hin en (dict_keys en) (fun key => dict_lookup_keys en key)).
    destruct (for_ (dict_keys en) _) as [[b|]|e']; [done|exact IH|done]. }
  pose proof (Hb (entry :: rules)) as H1.
  destruct (for_ (entry :: rules) _) as [[b|]|e']; cbn.
  - by subst b.
  - reflexivity.
  - reflexivity.
Qed.

Lemma filter_append_witness :
  let rec := record_of Samples.call_site "hijack_logger" "{}" (VStr "NA") in
  HijackLogFilter_filter
    ([[("community_annotation", VStr "critical")]] ++ [[("community_annotation", VStr "NA")]])
    rec = Ok true.
Proof.
  intros rec.
  rewrite (filter_append [[("community_annotation", VStr "critical")]]
             [[("community_annotation", VStr "NA")]] rec); [|discriminate|discriminate].
  vm_compute; reflexivity.
Defined.

(** X3. A rule without pairs matches nothing: a non-empty rule set made of
    such rules, [{}] for one, rejects every record, where the empty rule set
    accepts every record. *)
Theorem empty_rules_reject (rules : list rule) (rec : LogRecord) :
  rules ≠ [] →
  Forall (fun entry => entry = []) rules →
  HijackLogFilter_filter rules rec = Ok false.
Proof.
  intros Hne Hall.
  assert (Hp : fields_present rules rec).
  { intros entry key He Hk. rewrite Forall_forall in Hall.
    rewrite (Hall entry He) in Hk. inversion Hk. }
  rewrite (filter_present rules rec Hp).
  destruct rules as [|entry rules]; [done|]. f_equal.
  apply not_true_is_false. intros Hex.
  apply existsb_exists in Hex as (en & Hin & Hm).
  rewrite Forall_forall in Hall.
  rewrite (Hall en) in Hm by (by apply list_elem_of_In). discriminate.
Qed.

Lemma empty_rules_reject_witness :
  HijackLogFilter_filter [[]] Samples.call_site = Ok false.
Proof.
  apply (empty_rules_reject [[]] Samples.call_site); [discriminate|].
  repeat constructor.
Defined.

Lemma dict_lookup_app_l (e1 e2 : rule) (key : string) :
  key ∈ dict_keys e1 → dict_lookup (e1 ++ e2) key = dict_lookup e1 key.
Proof.
  unfold dict_keys. induction e1 as [|[k v] e1 IH]; cbn; intros H; [inversion H|].
  destruct (String.eqb_spec k key) as [->|Hne]; [reflexivity|].
  apply IH. apply elem_of_cons in H as [H|H]; [congruence|done].
Qed.

Lemma dict_lookup_app_r (e1 e2 : rule) (key : string) :
  key ∉ dict_keys e1 → dict_lookup (e1 ++ e2) key = dict_lookup e2 key.
Proof.
  unfold dict_keys. induction e1 as [|[k v] e1 IH]; cbn; intros H; [reflexivity|].
  destruct (String.eqb_spec k key) as [->|Hne]; [exfalso; apply H; left|].
  apply IH. intros Hin. apply H. by right.
Qed.

(** X4. The boundaries between rules do not matter: a rule with distinct
    fields can be split in two at any point, [{a: 1, b: 2}] into
    [{a: 1}, {b: 2}], and the filter decides, and fails, as before. *)
Theorem rule_split (e1 e2 : rule) (rules : list rule) (rec : LogRecord) :
  NoDup (dict_keys (e1 ++ e2)) →
  HijackLogFilter_filter ((e1 ++ e2) :: rules) rec
  = HijackLogFilter_filter (e1 :: e2 :: rules) rec.
Proof.
  intros Hnd. unfold HijackLogFilter_filter. cbn [for_].
  unfold dict_keys in *. rewrite map_app in *. fold (dict_keys e1) (dict_keys e2) in *.
  apply NoDup_app in Hnd as (_ & Hdisj & _).
  rewrite for_app.
  rewrite (for_ext (dict_keys e1) _ (fun filter_entry_key =>
             lhs ← rec_getitem rec filter_entry_key;
             rhs ← dict_getitem e1 filter_entry_key;
             if py_eq lhs rhs then Ok (Some true) else Ok None)).
  2:{ intros key Hk. unfold dict_getitem. by rewrite dict_lookup_app_l. }
  rewrite (for_ext (dict_keys e2) _ (fun filter_entry_key =>
             lhs ← rec_getitem rec filter_entry_key;
             rhs ← dict_getitem e2 filter_entry_key;
             if py_eq lhs rhs then Ok (Some true) else Ok None)).
  2:{ intros key Hk. unfold dict_getitem. rewrite dict_lookup_app_r; [done|].
      intros Hk1. by apply (Hdisj key). }
  destruct (for_ (dict_keys e1) _) as [[b|]|e]; [reflexivity| |reflexivity].
  destruct (for_ (dict_keys e2) _) as [[b|]|e]; reflexivity.
Qed.

Lemma rule_split_witness :
  let rec := record_of Samples.call_site "hijack_logger" "{}" (VStr "NA") in
  HijackLogFilter_filter
    [[("community_annotation", VStr "critical")] ++ [("levelname", VStr "INFO")]] rec
  = HijackLogFilter_filter
      [[("community_annotation", VStr "critical")]; [("levelname", VStr "INFO")]] rec.
Proof.
  intros rec. apply rule_split.
  cbn. apply NoDup_cons. split; [|apply NoDup_singleton].
  intros H. apply list_elem_of_singleton in H. discriminate.
Defined.

(** X5. The verdict depends on the record only through the fields the
    rules name: two records that agree on those fields are decided alike. *)
Theorem filter_reads_named_fields (rules : list rule) (rec1 rec2 : LogRecord) :
  (∀ entry key, entry ∈ rules → key ∈ dict_keys entry → rec1 !! key = rec2 !! key) →
  HijackLogFilter_filter rules rec1 = HijackLogFilter_filter rules rec2.
Proof.
  intros Hagree. unfold HijackLogFilter_filter.
  destruct rules as [|entry0 rules0]; [reflexivity|].
  revert Hagree. generalize (entry0 :: rules0). clear entry0 rules0. intros rules Hagree.
  rewrite (for_ext rules _ (fun filter_entry =>
             for_ (dict_keys filter_entry) (fun filter_entry_key =>
               lhs ← rec_getitem rec2 filter_entry_key;
               rhs ← dict_getitem filter_entry filter_entry_key;
               if py_eq lhs rhs then Ok (Some true) else Ok None))); [reflexivity|].
  intros entry He. apply for_ext. intros key Hk.
  unfold rec_getitem. by rewrite (Hagree entry key He Hk).
Qed.

Lemma filter_reads_named_fields_witness :
  let rules : list rule := [[("community_annotation", VStr "NA")]] in
  HijackLogFilter_filter rules
    (record_of Samples.call_site "hijack_logger" "{}" (VStr "NA"))
  = HijackLogFilter_filter rules
      (record_of Samples.call_site "mail_logger" "[]" (VStr "NA")).
Proof.
  intros rules. apply filter_reads_named_fields.
  intros entry key He Hk.
  apply list_elem_of_singleton in He as ->.
  apply list_elem_of_singleton in Hk as ->. vm_compute; reflexivity.
Defined.

(** X6. When the record has every field the rules name, the order of the
    rules does not matter: any rearrangement of the rule set gives the same
    verdict. *)
Theorem filter_rule_order (rules rules' : list rule) (rec : LogRecord) :
  fields_present rules rec →
  rules ≡ₚ rules' →
  HijackLogFilter_filter rules rec = HijackLogFilter_filter rules' rec.
Proof.
  intros Hp Hperm.
  assert (Hp' : fields_present rules' rec).
  { intros entry key He Hk. apply (Hp entry key); [by rewrite Hperm|done]. }
  rewrite (filter_present rules rec Hp), (filter_present rules' rec Hp').
  assert (Hex : existsb (rule_matches_any rec) rules
                = existsb (rule_matches_any rec) rules').
  { apply eq_true_iff_eq. rewrite !existsb_exists.
    split; intros (en & Hin & Hm); exists en; (split; [|done]);
      apply list_elem_of_In; apply list_elem_of_In in Hin;
      [by rewrite <- Hperm|by rewrite Hperm]. }
  destruct rules as [|en rules]; destruct rules' as [|en' rules'].
  - reflexivity.
  - by apply Permutation_nil_cons in Hperm.
  - symmetry in Hperm. by apply Permutation_nil_cons in Hperm.
  - by rewrite Hex.
Qed.

Lemma filter_rule_order_witness :
  let rec := record_of Samples.call_site "hijack_logger" "{}" (VStr "NA") in
  HijackLogFilter_filter
    [[("community_annotation", VStr "critical")]; [("community_annotation", VStr "NA")]] rec
  = HijackLogFilter_filter
      [[("community_annotation", VStr "NA")]; [("community_annotation", VStr "critical")]] rec.
Proof.
  intros rec. apply filter_rule_order.
  - intros entry key He Hk.
    apply elem_of_cons in He as [->|He]; [|apply list_elem_of_singleton in He as ->];
      apply list_elem_of_singleton in Hk as ->; vm_compute; eauto.
  - apply perm_swap.
Defined.

(** ** More on the callbacks *)

(** A callback on a body that is not a JSON object. *)
Lemma on_message_non_object (dumps : pyval → result string) (g : Globals)
    (q : queue) (m : Message) (w : World) :
  (∀ d, payload m ≠ Ok (VDict d)) →
  let r := on_message dumps g q m w in
  raises (fst r) = true ∧
  acks (snd r) = acks w ++ [delivery_tag m] ∧
  emitted (snd r) = emitted w.
Proof.
  intros Hno. cbv zeta. rewrite on_message_run. cbv zeta.
  destruct (payload m) as [p|e] eqn:Hp; [|done].
  destruct (dumps p) as [text|e]; [|done].
  destruct p; try done. by destruct (Hno d).
Qed.

(** X7. A message whose body does not decode to a JSON object (the decoding
    fails, or gives a list, a string, a number) is acknowledged, nothing is
    written for it, and the callback raises. *)
Theorem non_object_payload_raises (dumps : pyval → result string) (g : Globals)
    (q : queue) (m : Message) (w : World) :
  (∀ d, payload m ≠ Ok (VDict d)) →
  let r := on_message dumps g q m w in
  raises (fst r) = true ∧
  acks (snd r) = acks w ++ [delivery_tag m] ∧
  emitted (snd r) = emitted w.
Proof. intros Hno. by apply on_message_non_object. Qed.

Lemma non_object_payload_raises_witness :
  let r := on_message Samples.dumps (Samples.globals []) hij_log_queue
             (mkMessage 4 (Ok (VList [VInt 1]))) Samples.world0 in
  raises (fst r) = true ∧ acks (snd r) = [] ++ [4%Z] ∧ emitted (snd r) = [].
Proof.
  apply (non_object_payload_raises Samples.dumps (Samples.globals []) hij_log_queue
           (mkMessage 4 (Ok (VList [VInt 1]))) Samples.world0).
  intros d. discriminate.
Defined.

(** The filter over rules that each name one annotation. *)
Lemma filter_annotations (allowed : list pyval) (rec : LogRecord) (a : pyval) :
  rec !! "community_annotation" = Some a →
  allowed ≠ [] →
  HijackLogFilter_filter (map (fun v => [("community_annotation", v)]) allowed) rec
  = Ok (existsb (py_eq a) allowed).
Proof.
  intros Ha Hne.
  rewrite filter_present.
  - assert (Hex : existsb (rule_matches_any rec)
                    (map (fun v => [("community_annotation", v)]) allowed)
                  = existsb (py_eq a) allowed); [|by destruct allowed; [|rewrite <- Hex]].
    clear Hne.
    induction allowed as [|v allowed IH]; [reflexivity|].
    cbn [map existsb]. rewrite IH. f_equal.
    unfold rule_matches_any, pair_matches. cbn. rewrite Ha. apply orb_false_r.
  - intros entry key He Hk. apply list_elem_of_fmap in He as (v & -> & _).
    apply list_elem_of_singleton in Hk as ->. eauto.
Qed.

(** X8. Under a rule set that lists annotations,
    [{"community_annotation": a1}, ..., {"community_annotation": an}], a
    callback never raises on an object payload: the record is written when
    its annotation, "NA" when it has none, equals one of those listed, and
    is dropped after the acknowledgment otherwise. *)
Theorem annotation_list_filters (dumps : pyval → result string) (g : Globals) (q : queue)
    (m : Message) (w : World) (d : list (string * pyval)) (text : string)
    (allowed : list pyval) :
  let lg := logger_of g q in
  let w1 := set_acks (fun sent => sent ++ [delivery_tag m]) w in
  let record := record_of (ambient w) (name lg) text (annotation_of d) in
  hij_log_filter g = map (fun v => [("community_annotation", v)]) allowed →
  allowed ≠ [] →
  filters lg ≠ [] →
  enabled_for_info lg = true →
  payload m = Ok (VDict d) →
  dumps (VDict d) = Ok text →
  ambient w !! "community_annotation" = None →
  on_message dumps g q m w =
  (Ok tt, if existsb (py_eq (annotation_of d)) allowed
          then set_emitted (fun out => out ++ [(name lg, record)]) w1
          else w1).
Proof.
  intros lg w1 record Hrules Hne Hfs He Hp Hd Ha.
  rewrite (on_message_object dumps g q m w d text Hp Hd Ha He). cbv zeta.
  fold lg. fold record.
  rewrite (Filterer_filter_one g (filters lg) record
             (existsb (py_eq (annotation_of d)) allowed)).
  - destruct (filters lg); [done|]. by destruct (existsb _ _).
  - rewrite Hrules. apply filter_annotations; [apply record_of_annotation|done].
Qed.

Lemma annotation_list_filters_witness :
  let g := Samples.globals (map (fun v => [("community_annotation", v)])
                              [VStr "critical"; VStr "NA"]) in
  let m := mkMessage 8 (Ok (VDict [("type", VStr "mail")])) in
  fst (on_message Samples.dumps g mail_log_queue m Samples.world0) = Ok tt ∧
  length (emitted (snd (on_message Samples.dumps g mail_log_queue m Samples.world0))) = 1.
Proof.
  intros g m.
  rewrite (annotation_list_filters Samples.dumps g mail_log_queue m Samples.world0
             [("type", VStr "mail")]
             (Samples.dumps_text (VDict [("type", VStr "mail")]))
             [VStr "critical"; VStr "NA"]);
    [split; vm_compute; reflexivity|reflexivity|discriminate|discriminate
    |reflexivity|reflexivity|reflexivity|vm_compute; reflexivity].
Defined.

(** X9. The two sinks share the rule set, yet a rule on the record's
    "name" tells them apart: under [{"name": nm}] a callback writes the object
    payloads of the logger called [nm] and drops those of the other. *)
Theorem name_rule_selects_sink (dumps : pyval → result string) (g : Globals) (q : queue)
    (m : Message) (w : World) (d : list (string * pyval)) (text nm : string) :
  let lg := logger_of g q in
  let w1 := set_acks (fun sent => sent ++ [delivery_tag m]) w in
  let record := record_of (ambient w) (name lg) text (annotation_of d) in
  hij_log_filter g = [[("name", VStr nm)]] →
  filters lg ≠ [] →
  enabled_for_info lg = true →
  payload m = Ok (VDict d) →
  dumps (VDict d) = Ok text →
  ambient w !! "community_annotation" = None →
  on_message dumps g q m w =
  (Ok tt, if String.eqb (name lg) nm
          then set_emitted (fun out => out ++ [(name lg, record)]) w1
          else w1).
Proof.
  intros lg w1 record Hrules Hfs He Hp Hd Ha.
  rewrite (on_message_object dumps g q m w d text Hp Hd Ha He). cbv zeta.
  fold lg. fold record.
  rewrite (Filterer_filter_one g (filters lg) record (String.eqb (name lg) nm)).
  - destruct (filters lg); [done|]. by destruct (String.eqb _ _).
  - rewrite Hrules. unfold HijackLogFilter_filter. cbn [for_ dict_keys map fst].
    unfold rec_getitem, record, record_of, LogRecord_init.
    rewrite lookup_insert_ne by done. rewrite lookup_insert_eq. cbn.
    by destruct (String.eqb _ _).
Qed.

Lemma name_rule_selects_sink_witness :
  let g := Samples.globals [[("name", VStr "mail_logger")]] in
  let m := mkMessage 8 (Ok (VDict [("type", VStr "mail")])) in
  emitted (snd (on_message Samples.dumps g hij_log_queue m Samples.world0)) = [].
Proof.
  intros g m.
  rewrite (name_rule_selects_sink Samples.dumps g hij_log_queue m Samples.world0
             [("type", VStr "mail")]
             (Samples.dumps_text (VDict [("type", VStr "mail")])) "mail_logger");
    [reflexivity|reflexivity|discriminate|reflexivity|reflexivity|reflexivity
    |vm_compute; reflexivity].
Defined.

(** X10. With HIJACK_LOG_FILTER unset the module parses the text "[]";
    when that gives the empty list and the logging configuration lets INFO
    through, the module as loaded writes every object payload that
    serialises, on either queue. *)
Theorem default_configuration_writes_all (loads : string → result (list rule))
    (dumps : pyval → result string) (config : string → bool)
    (environ : gmap string string) (q : queue) (m : Message) (w : World)
    (d : list (string * pyval)) (text : string) :
  let g := fst (module_init loads config environ) in
  let lg := logger_of g q in
  environ !! "HIJACK_LOG_FILTER" = None →
  loads "[]" = Ok [] →
  config "hijack_logger" = true →
  config "mail_logger" = true →
  payload m = Ok (VDict d) →
  dumps (VDict d) = Ok text →
  ambient w !! "community_annotation" = None →
  snd (module_init loads config environ) = [] ∧
  on_message dumps g q m w =
  (Ok tt, set_emitted
            (fun out => out ++ [(name lg, record_of (ambient w) (name lg) text
                                             (annotation_of d))])
            (set_acks (fun sent => sent ++ [delivery_tag m]) w)).
Proof.
  intros g lg Henv Hl Hh Hm Hp Hd Ha. subst lg g.
  rewrite module_init_globals.
  unfold load_hij_log_filter, os_getenv. rewrite Henv, Hl. cbn [fst snd].
  split; [reflexivity|].
  rewrite (on_message_object dumps _ q m w d text Hp Hd Ha).
  - cbv zeta. destruct q; reflexivity.
  - destruct q; cbn; done.
Qed.

Lemma default_configuration_writes_all_witness :
  let g := fst (module_init Samples.loads (fun _ => true) ∅) in
  let m := mkMessage 8 (Ok (VDict [("type", VStr "mail")])) in
  fst (on_message Samples.dumps g mail_log_queue m Samples.world0) = Ok tt.
Proof.
  intros g m.
  destruct (default_configuration_writes_all Samples.loads Samples.dumps (fun _ => true)
              ∅ mail_log_queue m Samples.world0 [("type", VStr "mail")]
              (Samples.dumps_text (VDict [("type", VStr "mail")]))) as [_ H];
    [reflexivity|reflexivity|reflexivity|reflexivity|reflexivity|reflexivity
    |vm_compute; reflexivity|].
  subst g. rewrite H. reflexivity.
Defined.

(** ** More on the life cycle *)

(** The record [makeRecord] returns for one extra attribute. *)
Lemma makeRecord_single (amb : LogRecord) (nm text key : string) (a : pyval)
    (record : LogRecord) :
  makeRecord amb nm text [(key, a)] = Ok record →
  record = <[key := a]> (LogRecord_init amb nm text).
Proof.
  unfold makeRecord, add_extra.
  destruct (_ || _); [discriminate|]. by intros [= <-].
Qed.

(** What a callback sends and writes: one acknowledgment, and at most one
    record, under its logger's name, at level INFO, annotated. *)
Lemma on_message_traffic (dumps : pyval → result string) (g : Globals) (q : queue)
    (m : Message) (w : World) :
  let w' := snd (on_message dumps g q m w) in
  acks w' = acks w ++ [delivery_tag m] ∧
  ∃ extra, emitted w' = emitted w ++ extra ∧ (length extra ≤ 1)%nat ∧
    Forall (fun p => fst p = name (logger_of g q) ∧
                     snd p !! "levelname" = Some (VStr "INFO") ∧
                     is_Some (snd p !! "community_annotation")) extra.
Proof.
  cbv zeta. rewrite on_message_run. cbv zeta.
  assert (Hnil : ∀ w0 : World, ∃ extra, emitted w0 = emitted w0 ++ extra ∧ (length extra ≤ 1)%nat ∧
    Forall (fun p => fst p = name (logger_of g q) ∧
                     snd p !! "levelname" = Some (VStr "INFO") ∧
                     is_Some (snd p !! "community_annotation")) extra).
  { intros w0. exists []. rewrite app_nil_r. split; [done|]. split; [cbn; lia|constructor]. }
  destruct (payload m) as [p|e]; [|split; [done|apply (Hnil (set_acks _ w))]].
  destruct (dumps p) as [text|e]; [|split; [done|apply (Hnil (set_acks _ w))]].
  destruct (py_get p _ _) as [a|e]; [|split; [done|apply (Hnil (set_acks _ w))]].
  rewrite info_run. cbn [ambient set_acks].
  destruct (enabled_for_info _); [|split; [done|apply (Hnil (set_acks _ w))]].
  destruct (makeRecord _ _ _ _) as [record|e] eqn:Hrec;
    [|split; [done|apply (Hnil (set_acks _ w))]].
  destruct (Filterer_filter _ _ _) as [[|]|e];
    [|split; [done|apply (Hnil (set_acks _ w))]..].
  split; [done|]. exists [(name (logger_of g q), record)].
  split; [done|]. split; [done|]. constructor; [|constructor].
  apply makeRecord_single in Hrec as ->. cbn [fst snd]. split; [done|]. split.
  - unfold LogRecord_init. rewrite !lookup_insert_ne by done. apply lookup_insert_eq.
  - rewrite lookup_insert_eq. eauto.
Qed.

(** What the consume loop sends and writes. *)
Lemma consume_traffic (dumps : pyval → result string) (g : Globals)
    (ds : list (queue * Message)) (w : World) :
  let r := consume (on_message dumps g) ds w in
  worker (snd r) = worker w ∧
  ∃ n extra,
    (n ≤ length ds)%nat ∧
    acks (snd r) = acks w ++ map (fun d => delivery_tag (snd d)) (take n ds) ∧
    emitted (snd r) = emitted w ++ extra ∧ (length extra ≤ n)%nat ∧
    Forall (fun p => (fst p = name (hij_log g) ∨ fst p = name (mail_log g)) ∧
                     snd p !! "levelname" = Some (VStr "INFO") ∧
                     is_Some (snd p !! "community_annotation")) extra ∧
    (fst r = Ok tt → n = length ds) ∧
    (raises (fst r) = true → (0 < n)%nat).
Proof.
  revert w. induction ds as [|[q m] ds IH]; intros w; cbv zeta.
  - split; [done|]. exists 0, []. cbn. rewrite !app_nil_r.
    split; [done|]. split; [done|]. split; [done|]. split; [done|].
    split; [constructor|]. split; [done|discriminate].
  - cbn [consume]. unfold mbind, M_bind, poll.
    set (w1 := set_polls _ w).
    pose proof (on_message_frame dumps g q m w1) as (_ & _ & _ & Hw & _).
    pose proof (on_message_traffic dumps g q m w1) as (Hacks & ex1 & Hem & Hlen & Hall).
    cbv zeta in Hw, Hacks, Hem.
    change (acks w1) with (acks w) in Hacks. change (emitted w1) with (emitted w) in Hem.
    change (worker w1) with (worker w) in Hw.
    assert (Hall' : Forall (fun p => (fst p = name (hij_log g) ∨ fst p = name (mail_log g)) ∧
                     snd p !! "levelname" = Some (VStr "INFO") ∧
                     is_Some (snd p !! "community_annotation")) ex1).
    { eapply Forall_impl; [exact Hall|]. intros p (Hn & ? & ?). split; [|done].
      rewrite Hn. destruct q; [by left|by right]. }
    destruct (on_message dumps g q m w1) as [[[]|e] w2]; cbn [fst snd] in *.
    + specialize (IH w2). cbv zeta in IH.
      destruct IH as (IHw & n & ex2 & Hn & IHa & IHe & IHl & IHall & IHok & IHr).
      split; [by rewrite IHw|].
      exists (S n), (ex1 ++ ex2). cbn [length take map].
      split; [lia|]. split; [by rewrite IHa, Hacks, <- app_assoc|].
      split; [by rewrite IHe, Hem, <- app_assoc|].
      split; [rewrite length_app; lia|].
      split; [by apply Forall_app|].
      split; [intros H; by rewrite (IHok H)|intros _; lia].
    + split; [done|]. exists 1, ex1. cbn [length take map].
      split; [lia|]. split; [by rewrite take_0|]. split; [done|].
      split; [done|]. split; [done|]. split; [done|intros _; lia].
Qed.

(** What the body of the [try] statement sends and writes, and the worker
    it leaves: the one it created, its stop flag set when the loop ended on
    the flag and clear when the body raised. *)
Lemma run_body_traffic (dumps : pyval → result string) (g : Globals) (b : Broker)
    (w : World) :
  let r := run_body dumps g b w in
  let ds := deliveries b in
  worker (snd r) = match unreachable b, declare_fails b with
                   | None, None => Some (mkWorker (negb (raises (fst r))))
                   | _, _ => worker w
                   end ∧
  ∃ n extra,
    (n ≤ length ds)%nat ∧
    acks (snd r) = acks w ++ map (fun d => delivery_tag (snd d)) (take n ds) ∧
    emitted (snd r) = emitted w ++ extra ∧ (length extra ≤ n)%nat ∧
    Forall (fun p => (fst p = name (hij_log g) ∨ fst p = name (mail_log g)) ∧
                     snd p !! "levelname" = Some (VStr "INFO") ∧
                     is_Some (snd p !! "community_annotation")) extra ∧
    (fst r = Ok tt → n = length ds) ∧
    match unreachable b, declare_fails b with
    | None, None => True
    | _, _ => n = 0
    end.
Proof.
  cbv zeta. unfold run_body, Connection, Worker_init, create_exchange, kombu.run.
  unfold mbind, M_bind, mret, M_ret, poll, stop_seen, modify, fail_if, raise.
  destruct (unreachable b) as [e1|]; cbn.
  { split; [done|]. exists 0, []. rewrite take_0, !app_nil_r.
    split; [lia|]. split; [done|]. split; [done|]. split; [done|].
    split; [constructor|]. split; [discriminate|done]. }
  destruct (declare_fails b) as [e2|]; cbn.
  { split; [done|]. exists 0, []. rewrite take_0, !app_nil_r.
    split; [lia|]. split; [done|]. split; [done|]. split; [done|].
    split; [constructor|]. split; [discriminate|done]. }
  set (w1 := set_worker _ _).
  pose proof (consume_traffic dumps g (deliveries b) w1) as Hc. cbv zeta in Hc.
  destruct Hc as (Hw & n & extra & Hn & Ha & He & Hl & Hall & Hok & _).
  change (acks w1) with (acks w) in Ha. change (emitted w1) with (emitted w) in He.
  change (worker w1) with (Some (mkWorker false)) in Hw.
  destruct (consume (on_message dumps g) (deliveries b) w1) as [[[]|e] w2];
    cbn [fst snd] in *.
  - destruct (loop_error b); cbn; (split; [done|]); exists n, extra;
      (split; [done|]); (split; [done|]); (split; [done|]); (split; [done|]);
      (split; [done|]); (split; [|done]); intros _; by apply Hok.
  - split; [done|]. exists n, extra. repeat (split; [done|]). done.
Qed.

(** What a run sends and writes, and the worker it leaves. *)
Lemma run_traffic (dumps : pyval → result string) (g : Globals) (b : Broker) (w : World) :
  let r := run dumps g b w in
  let ds := deliveries b in
  match unreachable b, declare_fails b with
  | None, None =>
      ∃ flag, worker (snd r) = Some (mkWorker flag) ∧
              (flag = true ↔ app_log (snd r) = app_log w ++ [log_info "stopped"])
  | _, _ => worker (snd r) = worker w
  end ∧
  ∃ n extra,
    (n ≤ length ds)%nat ∧
    acks (snd r) = acks w ++ map (fun d => delivery_tag (snd d)) (take n ds) ∧
    emitted (snd r) = emitted w ++ extra ∧ (length extra ≤ n)%nat ∧
    Forall (fun p => (fst p = name (hij_log g) ∨ fst p = name (mail_log g)) ∧
                     snd p !! "levelname" = Some (VStr "INFO") ∧
                     is_Some (snd p !! "community_annotation")) extra ∧
    (app_log (snd r) = app_log w ++ [log_info "stopped"] → n = length ds) ∧
    match unreachable b, declare_fails b with
    | None, None => True
    | _, _ => n = 0
    end.
Proof.
  cbv zeta. rewrite run_run. cbv zeta.
  pose proof (run_body_traffic dumps g b (set_running true w)) as Ht.
  pose proof (run_body_frame dumps g b (set_running true w)) as (_ & Hlog & _).
  cbv zeta in Ht, Hlog.
  destruct Ht as (Hw & n & extra & Hn & Ha & He & Hl & Hall & Hok & Hstart).
  change (app_log (set_running true w)) with (app_log w) in Hlog.
  change (acks (set_running true w)) with (acks w) in Ha.
  change (emitted (set_running true w)) with (emitted w) in He.
  change (worker (set_running true w)) with (worker w) in Hw.
  assert (Hne : app_log w ++ [log_exception "exception"; log_info "stopped"]
                ≠ app_log w ++ [log_info "stopped"]).
  { intros H. apply app_inv_head in H. discriminate. }
  destruct (run_body dumps g b (set_running true w)) as [[[]|e] w'];
    cbn [fst snd raises negb set_running set_app_log worker acks emitted app_log] in *;
    rewrite Hlog, <- ?app_assoc; cbn [app].
  - split.
    + destruct (unreachable b); [done|]. destruct (declare_fails b); [done|].
      exists true. done.
    + exists n, extra. repeat (split; [done|]). split; [|done].
      intros _. by apply Hok.
  - split.
    + destruct (unreachable b); [done|]. destruct (declare_fails b); [done|].
      exists false. split; [done|]. split; [done|]. intros H. by apply Hne in H.
    + exists n, extra. repeat (split; [done|]). exact Hstart.
Qed.

(** X11. The acknowledgments of a run are those of a first part of the
    broker's deliveries, in order, each sent once; a run whose startup fails
    sends none, and a run that ends without logging an exception has
    acknowledged every delivery. *)
Theorem run_acknowledges_in_order (dumps : pyval → result string) (g : Globals)
    (b : Broker) (w : World) :
  let r := run dumps g b w in
  ∃ n,
    (n ≤ length (deliveries b))%nat ∧
    acks (snd r)
      = acks w ++ map (fun d => delivery_tag (snd d)) (take n (deliveries b)) ∧
    (app_log (snd r) = app_log w ++ [log_info "stopped"] → n = length (deliveries b)) ∧
    match unreachable b, declare_fails b with
    | None, None => True
    | _, _ => n = 0
    end.
Proof.
  cbv zeta.
  destruct (run_traffic dumps g b w) as (_ & n & extra & Hn & Ha & _ & _ & _ & Hok & Hs).
  exists n. done.
Qed.

(** X12. A run never writes more records than it acknowledges messages, and
    every record it writes goes out under the name of the hijack or the mail
    logger, at level INFO, with an annotation field. *)
Theorem run_writes_only_acknowledged (dumps : pyval → result string) (g : Globals)
    (b : Broker) (w : World) :
  let r := run dumps g b w in
  ∃ extra,
    emitted (snd r) = emitted w ++ extra ∧
    (length (acks w) + length extra ≤ length (acks (snd r)))%nat ∧
    Forall (fun p => (fst p = name (hij_log g) ∨ fst p = name (mail_log g)) ∧
                     snd p !! "levelname" = Some (VStr "INFO") ∧
                     is_Some (snd p !! "community_annotation")) extra.
Proof.
  cbv zeta.
  destruct (run_traffic dumps g b w) as (_ & n & extra & Hn & Ha & He & Hl & Hall & _).
  exists extra. split; [done|]. split; [|done].
  rewrite Ha, length_app, length_map, length_take. lia.
Qed.

(** X13. One bad message halts the relay: when the first delivery of a run
    carries a body that is not a JSON object, the run acknowledges that
    message alone, writes nothing, logs the exception and "stopped", and
    returns in state STOPPED; the deliveries behind it are never consumed. *)
Theorem bad_message_stops_run (dumps : pyval → result string) (g : Globals) (b : Broker)
    (w : World) (q : queue) (m : Message) (rest : list (queue * Message)) :
  unreachable b = None →
  declare_fails b = None →
  deliveries b = (q, m) :: rest →
  (∀ d, payload m ≠ Ok (VDict d)) →
  let r := run dumps g b w in
  fst r = Ok tt ∧
  _running (snd r) = false ∧
  acks (snd r) = acks w ++ [delivery_tag m] ∧
  emitted (snd r) = emitted w ∧
  app_log (snd r) = app_log w ++ [log_exception "exception"; log_info "stopped"].
Proof.
  intros Hu Hd Hds Hno. cbv zeta. rewrite run_run. cbv zeta.
  unfold run_body, Connection, Worker_init, create_exchange, kombu.run.
  unfold mbind, M_bind, mret, M_ret, poll, stop_seen, modify, fail_if, raise.
  rewrite Hu, Hd, Hds. cbn [consume]. unfold mbind, M_bind, mret, M_ret, poll.
  cbv beta iota.
  match goal with |- context [on_message dumps g q m ?x] => set (w1 := x) end.
  pose proof (on_message_non_object dumps g q m w1 Hno) as (Hr & Ha & He).
  pose proof (on_message_frame dumps g q m w1) as (Hl & _).
  cbv zeta in Hr, Ha, He, Hl.
  destruct (on_message dumps g q m w1) as [[[]|e] w2]; cbn [fst snd raises] in *;
    [discriminate|].
  cbn [set_running set_app_log _running acks emitted app_log].
  rewrite Ha, He, Hl, <- app_assoc. done.
Qed.

Lemma bad_message_stops_run_witness :
  let b := mkBroker None None
             [(hij_log_queue, mkMessage 4 (Ok (VList [VInt 1])));
              (mail_log_queue, mkMessage 5 (Ok (VDict [("type", VStr "mail")])))]
             None in
  acks (snd (run Samples.dumps (Samples.globals []) b Samples.world0)) = [] ++ [4%Z].
Proof.
  intros b.
  refine (proj1 (proj2 (proj2 (bad_message_stops_run Samples.dumps (Samples.globals []) b
            Samples.world0 hij_log_queue (mkMessage 4 (Ok (VList [VInt 1]))) _
            eq_refl eq_refl eq_refl _)))).
  intros d. discriminate.
Defined.

(** X14. [stop()] never raises, sends and writes nothing, and doing it
    twice is doing it once. With a worker in place it sets the worker's stop
    flag and leaves the running flag as it is; only without a worker does it
    clear the running flag. *)
Theorem stop_once_or_twice (w : World) :
  let w1 := snd (stop w) in
  fst (stop w) = Ok tt ∧
  stop w1 = (Ok tt, w1) ∧
  acks w1 = acks w ∧ emitted w1 = emitted w ∧ app_log w1 = app_log w ∧
  polls w1 = polls w ∧
  match worker w with
  | Some _ => worker w1 = Some (mkWorker true) ∧ _running w1 = _running w
  | None => worker w1 = None ∧ _running w1 = false
  end.
Proof.
  cbv zeta. unfold stop. destruct (worker w) eqn:Hw; cbn; rewrite ?Hw; cbn; done.
Qed.

(** A run reads the world it starts from only through what was sent,
    written, logged and polled before, and the ambient attributes. *)
Lemma run_reads (dumps : pyval → result string) (g : Globals) (b : Broker) (w w' : World) :
  acks w' = acks w → emitted w' = emitted w → app_log w' = app_log w →
  ambient w' = ambient w → polls w' = polls w →
  let r' := run dumps g b w' in
  let r := run dumps g b w in
  fst r' = fst r ∧ acks (snd r') = acks (snd r) ∧ emitted (snd r') = emitted (snd r) ∧
  app_log (snd r') = app_log (snd r) ∧ polls (snd r') = polls (snd r) ∧
  _running (snd r') = _running (snd r).
Proof.
  intros Ha He Hl Hm Hp. cbv zeta. rewrite !run_run. cbv zeta.
  unfold run_body, Connection, Worker_init, create_exchange, kombu.run.
  unfold mbind, M_bind, mret, M_ret, poll, stop_seen, modify, fail_if, raise.
  destruct (unreachable b); [cbn; by rewrite Ha, He, Hl, Hp|].
  destruct (declare_fails b); [cbn; by rewrite Ha, He, Hl, Hp|].
  unfold set_worker, set_polls, set_running.
  cbn [acks emitted app_log ambient _running worker polls].
  rewrite Ha, He, Hl, Hm, Hp. done.
Qed.

(** X15. A [stop()] issued before [run()] is forgotten: the run connects,
    consumes, acknowledges, writes and logs as it would have without it, and
    [is_running()] answers the same throughout. *)
Theorem stop_before_run_is_forgotten (dumps : pyval → result string) (g : Globals)
    (b : Broker) (w : World) :
  let r' := run dumps g b (snd (stop w)) in
  let r := run dumps g b w in
  fst r' = fst r ∧ acks (snd r') = acks (snd r) ∧ emitted (snd r') = emitted (snd r) ∧
  app_log (snd r') = app_log (snd r) ∧ polls (snd r') = polls (snd r) ∧
  _running (snd r') = _running (snd r).
Proof.
  apply run_reads; unfold stop; by destruct (worker w).
Qed.


(** ** The acknowledgments of a run *)

(** Whether a callback returns or raises depends on the world through the
    ambient attributes only. *)
Lemma on_message_outcome (dumps : pyval → result string) (g : Globals) (q : queue)
    (m : Message) (w w' : World) :
  ambient w = ambient w' →
  fst (on_message dumps g q m w) = fst (on_message dumps g q m w').
Proof.
  intros Hamb. rewrite !on_message_run. cbv zeta.
  destruct (payload m) as [p|e]; [|reflexivity].
  destruct (dumps p) as [text|e]; [|reflexivity].
  destruct (py_get p _ _) as [a|e]; [|reflexivity].
  rewrite !info_run. cbn [ambient set_acks]. rewrite Hamb.
  destruct (enabled_for_info _); [|reflexivity].
  destruct (makeRecord _ _ _ _) as [record|e]; [|reflexivity].
  destruct (Filterer_filter _ _ _) as [[|]|e]; reflexivity.
Qed.

(** The consume loop acknowledges what it hands to a callback, in order. *)
Lemma consume_acks (dumps : pyval → result string) (g : Globals)
    (ds : list (queue * Message)) (w : World) :
  let r := consume (on_message dumps g) ds w in
  acks (snd r)
    = acks w ++ map (fun d => delivery_tag (snd d)) (consumed dumps g (ambient w) ds) ∧
  ambient (snd r) = ambient w.
Proof.
  revert w. induction ds as [|[q m] ds IH]; intros w; cbv zeta.
  - cbn. by rewrite app_nil_r.
  - cbn [consume consumed]. unfold mbind, M_bind, poll. cbv beta iota.
    set (w1 := set_polls _ w).
    pose proof (one_ack_per_callback dumps g q m w1) as Ha.
    pose proof (on_message_frame dumps g q m w1) as (_ & Hamb & _). cbv zeta in Hamb.
    assert (Hout : callback_raises dumps g (ambient w) (q, m)
                   = raises (fst (on_message dumps g q m w1))).
    { unfold callback_raises. f_equal. by apply on_message_outcome. }
    change (acks w1) with (acks w) in Ha. change (ambient w1) with (ambient w) in Hamb.
    rewrite Hout.
    destruct (on_message dumps g q m w1) as [[[]|e] w2]; cbn [fst snd raises] in *.
    + specialize (IH w2). cbv zeta in IH. destruct IH as (IHa & IHm).
      rewrite IHa, IHm, Ha, Hamb, <- app_assoc. done.
    + by rewrite Ha.
Qed.



(** ** The filter on any decoded setting *)

(** A loop over the images of a list. *)
Lemma for_map {A B R} (f : A → B) (l : list A) (body : B → result (option R)) :
  for_ (map f l) body = for_ l (fun x => body (f x)).
Proof.
  induction l as [|x l IH]; [reflexivity|].
  cbn [map for_]. destruct (body (f x)) as [[r|]|e]; [reflexivity|exact IH|reflexivity].
Qed.

(** What a loop raises, its body raises on some item. *)
Lemma for_raises {A R} (P : exn → Prop) (l : list A) (body : A → result (option R))
    (e : exn) :
  (∀ x e', body x = Raise e' → P e') → for_ l body = Raise e → P e.
Proof.
  intros Hbody. induction l as [|x l IH]; [discriminate|].
  cbn [for_]. destruct (body x) as [[r|]|e'] eqn:Hx; [discriminate|exact IH|].
  intros [= <-]. by apply (Hbody x).
Qed.

(** On a list of objects the filter on any value is the filter on rules. *)
Lemma filter_any_rules (rules : list rule) (rec : LogRecord) :
  HijackLogFilter_filter_any (VList (map VDict rules)) rec
  = HijackLogFilter_filter rules rec.
Proof.
  unfold HijackLogFilter_filter_any, HijackLogFilter_filter.
  destruct rules as [|entry rules]; [reflexivity|].
  cbn [py_truthy map negb py_iter].
  change (VDict entry :: map VDict rules) with (map VDict (entry :: rules)).
  generalize (entry :: rules). clear entry rules. intros rules.
  unfold mbind at 1, result_bind at 1, rbind at 1.
  rewrite for_map.
  rewrite (for_ext rules _ (fun filter_entry =>
             for_ (dict_keys filter_entry) (fun filter_entry_key =>
               lhs ← rec_getitem rec filter_entry_key;
               rhs ← dict_getitem filter_entry filter_entry_key;
               if py_eq lhs rhs then Ok (Some true) else Ok None))); [reflexivity|].
  intros entry _. cbn [py_iter]. unfold mbind at 1, result_bind at 1, rbind at 1.
  rewrite for_map. reflexivity.
Qed.

(** The test of one pair raises [KeyError] or [TypeError] and nothing else. *)
Lemma pair_test_raises (rec : LogRecord) (entry key : pyval) (e : exn) :
  (lhs ← rec_getitem_any rec key;
   rhs ← py_getitem entry key;
   if py_eq lhs rhs then Ok (Some true) else Ok None) = Raise e →
  e = KeyError ∨ e = TypeError.
Proof.
  unfold mbind, result_bind, rbind.
  destruct key as [i| |b|z|k|l|d]; cbn [rec_getitem_any];
    try (intros [= <-]; auto; fail).
  unfold rec_getitem. destruct (rec !! k) as [x|]; [|intros [= <-]; auto].
  destruct entry as [i| |b|z|s|l|d]; cbn [py_getitem];
    try (intros [= <-]; auto; fail).
  unfold dict_getitem. destruct (dict_lookup d k) as [v|]; [|intros [= <-]; auto].
  destruct (py_eq x v); discriminate.
Qed.


